(** * tester.cpp: a fixture-driven test harness

    Shallow embedding of [src/cpp/tester.cpp] and the properties of its
    case discovery, case runner and reporter.

    - [std::string] is [string]; [size_t] is a [Z] taken modulo [2^64];
      [int] is a [Z] with its 32-bit range written out.
    - [std::cout] is the text written so far, threaded through every
      function that prints.
    - A C++ call either returns or throws; a thrown object is either derived
      from [std::exception] (it has a [what()]) or it is not. *)

From Stdlib Require Import ZArith List Bool Ascii String Lia.
From Stdlib Require Import Sorting.Sorted Sorting.Permutation.
From Stdlib Require Import Numbers.DecimalString Numbers.DecimalZ.
Import ListNotations.

Open Scope string_scope.
Open Scope Z_scope.

(** ** Machine integers *)

Module Int.
Definition INT_MIN : Z := - 2 ^ 31.
Definition INT_MAX : Z := 2 ^ 31 - 1.

Definition in_range (z : Z) : bool := (INT_MIN <=? z) && (z <=? INT_MAX).

(** Conversion of an integer to [int]: reduction modulo [2^32] into the
    signed range.  This is what [int total = v.size()] and [count++]
    compute on the two's complement targets the harness is built for. *)
Definition wrap (z : Z) : Z := (z + 2 ^ 31) mod 2 ^ 32 - 2 ^ 31.

(** What [operator>>(int&)] stores for an out-of-range number. *)
Definition clamp (z : Z) : Z :=
  if z <? INT_MIN then INT_MIN else if INT_MAX <? z then INT_MAX else z.
End Int.

Module SizeT.
Definition modulus : Z := 2 ^ 64.
Definition npos : Z := modulus - 1.
Definition add (a b : Z) : Z := (a + b) mod modulus.
End SizeT.

(** ** Characters and strings *)

Definition char_in (c : ascii) (lo hi : nat) : bool :=
  (Nat.leb lo (nat_of_ascii c) && Nat.leb (nat_of_ascii c) hi)%bool.

(** [isspace] in the "C" locale: HT, LF, VT, FF, CR and space. *)
Definition isspace (c : ascii) : bool :=
  (char_in c 9 13 || Nat.eqb (nat_of_ascii c) 32)%bool.

Definition isdigit (c : ascii) : bool := char_in c 48 57.

Definition digit_value (c : ascii) : Z := Z.of_nat (nat_of_ascii c) - 48.

Definition LF : ascii := ascii_of_nat 10.
Definition CR : ascii := ascii_of_nat 13.
Definition HT : ascii := ascii_of_nat 9.
Definition SP : ascii := ascii_of_nat 32.
Definition ESC : ascii := ascii_of_nat 27.

Module StdString.
Definition size (s : string) : Z := Z.of_nat (String.length s).

(** Is [c] one of the characters of [chars]? *)
Fixpoint contains (chars : string) (c : ascii) : bool :=
  match chars with
  | "" => false
  | String d chars' => (Ascii.eqb c d || contains chars' c)%bool
  end.

(** [s.find_last_not_of(chars)]: the greatest index of [s] holding a
    character that is not in [chars], and [npos] when there is none. *)
Fixpoint find_last_not_of (s chars : string) : Z :=
  match s with
  | "" => SizeT.npos
  | String c s' =>
      let r := find_last_not_of s' chars in
      if r =? SizeT.npos
      then (if contains chars c then SizeT.npos else 0)
      else SizeT.add r 1
  end.

(** The first [n] characters of [s]. *)
Fixpoint take (n : nat) (s : string) : string :=
  match n, s with
  | S n', String c s' => String c (take n' s')
  | _, _ => ""
  end.

(** [s.erase(pos)]: drops everything from index [pos] on; it throws
    [std::out_of_range] when [pos > s.size()], which is [None] here. *)
Definition erase (s : string) (pos : Z) : option string :=
  if size s <? pos then None else Some (take (Z.to_nat pos) s).

Fixpoint all_in (chars s : string) : bool :=
  match s with
  | "" => true
  | String c s' => (contains chars c && all_in chars s')%bool
  end.

(** The last character of [s], if any. *)
Fixpoint last (s : string) : option ascii :=
  match s with
  | "" => None
  | String c "" => Some c
  | String _ s' => last s'
  end.
End StdString.

(** The characters [trim_trailing] strips: space, newline, carriage return
    and tab, in the order of the source literal. *)
Definition WHITESPACE : string :=
  String SP (String LF (String CR (String HT ""))).

(** [void trim_trailing(std::string& s)]: the new value of [s].
    [find_last_not_of] yields [npos] on a string of whitespace only, and
    [npos + 1] wraps around to [0]. *)
Definition trim_trailing (s : string) : option string :=
  StdString.erase s (SizeT.add (StdString.find_last_not_of s WHITESPACE) 1).

(** [std::to_string(int)]: the canonical decimal form, a ['-'] before the
    digits of a negative number and no leading zero. *)
Definition to_string (n : Z) : string := NilEmpty.string_of_int (Z.to_int n).

(** ** Exceptions and the console *)

(** What a [throw] carries: an object derived from [std::exception], with
    the text of its [what()], or an object of any other type. *)
Inductive thrown : Type :=
| std_exception (what : string)
| other_object.

Inductive completion (A : Type) : Type :=
| Return (a : A)
| Throw (e : thrown).
Arguments Return {A} a.
Arguments Throw {A} e.

(** A computation that writes to [std::cout]: from the text written so far
    to how the call completes and the text written then. *)
Definition io (A : Type) : Type := string -> completion A * string.

Definition ret {A} (a : A) : io A := fun out => (Return a, out).

Definition throw {A} (e : thrown) : io A := fun out => (Throw e, out).

Definition bind {A B} (m : io A) (k : A -> io B) : io B :=
  fun out =>
    match m out with
    | (Return a, out') => k a out'
    | (Throw e, out') => (Throw e, out')
    end.

(** [try { body } catch (const std::exception& e) { handler(e.what()) }]:
    an object that is not a [std::exception] passes through. *)
Definition try_catch {A} (body : io A) (handler : string -> io A) : io A :=
  fun out =>
    match body out with
    | (Throw (std_exception what), out') => handler what out'
    | r => r
    end.

(** [std::cout << text]. *)
Definition print (text : string) : io unit := fun out => (Return tt, out ++ text).

(** The completion of a call that does not print. *)
Definition call {A} (c : completion A) : io A := fun out => (c, out).

Declare Scope io_scope.
Delimit Scope io_scope with io.
Notation "x <- m ;; k" := (bind m (fun x => k))
  (at level 61, m at next level, right associativity) : io_scope.
Notation "m ;; k" := (bind m (fun _ => k))
  (at level 61, right associativity) : io_scope.
Open Scope io_scope.

Definition endl : string := String LF "".
Definition DQUOTE : string := String (ascii_of_nat 34) "".

(** ** Configuration *)

Definition TESTS_DIR : string := "tests/".
Definition FULL_LOGGING : bool := false.

Definition COLORS : list (string * string) :=
  [ ("green", String ESC "[92m");
    ("red", String ESC "[91m");
    ("bold", String ESC "[1m");
    ("end", String ESC "[0m") ].

(** [std::map::find], as an option. *)
Fixpoint map_find (m : list (string * string)) (key : string) : option string :=
  match m with
  | [] => None
  | (k, v) :: m' => if (k =? key)%string then Some v else map_find m' key
  end.

(** [std::map::at]: throws [std::out_of_range] on a key that is absent. *)
Definition map_at (m : list (string * string)) (key : string) : io string :=
  match map_find m key with
  | Some v => ret v
  | None => throw (std_exception "map::at")
  end.

(** [void print_colored(const std::string& text, const std::string& color_name)] *)
Definition print_colored (text color_name : string) : io unit :=
  let color_code :=
    match map_find COLORS color_name with Some code => code | None => "" end in
  print color_code ;;
  print text ;;
  end_code <- map_at COLORS "end" ;;
  print end_code.

(** ** The fixture store *)

(** One entry of the fixture directory: its file name, whether it is a
    regular file, and the bytes a [std::ifstream] reads from it ([None] when
    it cannot be opened for reading). *)
Record dir_entry : Type := {
  filename : string;
  is_regular_file : bool;
  contents : option string
}.

(** The state of the path [TESTS_DIR]: [None] when it does not exist or is
    not a directory, else its entries in the order [directory_iterator]
    visits them (an order the file system chooses). *)
Definition filesystem : Type := option (list dir_entry).

Module Path.
Definition starts_with_slash (p : string) : bool :=
  match p with String c _ => Ascii.eqb c "/" | "" => false end.

Definition ends_with_slash (p : string) : bool :=
  match StdString.last p with Some c => Ascii.eqb c "/" | None => false end.

(** [p / q]: an absolute [q] replaces [p]; a separator is added unless
    [p] is empty or ends with one. *)
Definition append (p q : string) : string :=
  if starts_with_slash q then q
  else if (ends_with_slash p || (p =? ""))%string%bool then p ++ q
  else p ++ "/" ++ q.

(** Splits a file name at its last period: what is before it, and the
    rest from the period on. *)
Fixpoint split_last_dot (name : string) : option (string * string) :=
  match name with
  | "" => None
  | String c name' =>
      match split_last_dot name' with
      | Some (before, ext) => Some (String c before, ext)
      | None => if Ascii.eqb c "." then Some ("", name) else None
      end
  end.

(** Is there an extension?  Not for ["."] and [".."], not without a
    period, and not when the only period is the first character. *)
Definition split (name : string) : string * string :=
  if ((name =? ".") || (name =? ".."))%string%bool then (name, "")
  else match split_last_dot name with
       | None => (name, "")
       | Some ("", _) => (name, "")
       | Some (before, ext) => (before, ext)
       end.

(** [path::stem()] and [path::extension()] of a file name. *)
Definition stem (name : string) : string := fst (split name).
Definition extension (name : string) : string := snd (split name).
End Path.

(** The entry a path names, if any: entries are named [TESTS_DIR / filename]. *)
Definition resolve (fs : filesystem) (path : string) : option dir_entry :=
  match fs with
  | None => None
  | Some entries =>
      find (fun e => (Path.append TESTS_DIR (filename e) =? path)%string) entries
  end.

(** [fs::exists(directory) && fs::is_directory(directory)], with the
    entries: the model holds nothing but [TESTS_DIR]. *)
Definition directory_iterator (fs : filesystem) (directory : string)
  : option (list dir_entry) :=
  if (directory =? TESTS_DIR)%string then fs else None.

Definition exists_ (fs : filesystem) (path : string) : bool :=
  match resolve fs path with Some _ => true | None => false end.

(** [std::ifstream file(path)]: the bytes to read, [None] when [!file]. *)
Definition ifstream (fs : filesystem) (path : string) : option string :=
  match resolve fs path with
  | Some e => contents e
  | None => None
  end.

(** ** [std::stoi] *)

Fixpoint skip_space (s : string) : string :=
  match s with
  | String c s' => if isspace c then skip_space s' else s
  | "" => ""
  end.

(** The number written by the longest prefix of digits of [s], after the
    digits that gave [acc]; and what follows that prefix. *)
Fixpoint digits (s : string) (acc : Z) : Z * string :=
  match s with
  | String c s' => if isdigit c then digits s' (10 * acc + digit_value c) else (acc, s)
  | "" => (acc, "")
  end.

Definition starts_with_digit (s : string) : bool :=
  match s with String c _ => isdigit c | "" => false end.

(** An optional sign and then at least one digit: the number and the
    characters left, or [None] when there is no digit there. *)
Definition signed_number (s : string) : option (Z * string) :=
  let '(negative, s') :=
    match s with
    | String "-" r => (true, r)
    | String "+" r => (false, r)
    | _ => (false, s)
    end in
  if starts_with_digit s'
  then let '(v, rest) := digits s' 0 in Some (if negative then - v else v, rest)
  else None.

Inductive stoi_result : Type :=
| Parsed (n : Z)
| invalid_argument
| out_of_range.

(** [std::stoi(s)]: [strtol] in base 10 skips leading white space, reads a
    sign and the digits that follow, and ignores every character after
    them.  No digit: [std::invalid_argument]; a number outside [int]:
    [std::out_of_range].  Both derive from [std::exception]. *)
Definition stoi (s : string) : stoi_result :=
  match signed_number (skip_space s) with
  | None => invalid_argument
  | Some (v, _) => if Int.in_range v then Parsed v else out_of_range
  end.

(** ** [std::sort] on a [vector<int>] *)

Fixpoint insert_sorted (x : Z) (l : list Z) : list Z :=
  match l with
  | [] => [x]
  | y :: l' => if x <=? y then x :: l else y :: insert_sorted x l'
  end.

(** The ascending arrangement of [l]; on integers every sorting algorithm
    yields this one list (see [std_sort_unique]). *)
Fixpoint std_sort (l : list Z) : list Z :=
  match l with
  | [] => []
  | x :: l' => insert_sorted x (std_sort l')
  end.

(** ** Case discovery *)

(** The body of the loop over the directory: [case_numbers] after [entry]. *)
Definition scan_entry (case_numbers : list Z) (entry : dir_entry) : list Z :=
  if (is_regular_file entry && (Path.extension (filename entry) =? ".in")%string)%bool
  then match stoi (Path.stem (filename entry)) with
       | Parsed num => case_numbers ++ [num]
       | invalid_argument | out_of_range => case_numbers
       end
  else case_numbers.

(** [std::vector<std::string> find_test_cases(const fs::path& directory)] *)
Definition find_test_cases (fs : filesystem) (directory : string) : io (list string) :=
  match directory_iterator fs directory with
  | None =>
      print_colored ("❌ Error: Test directory '" ++ directory ++ "' not found.") "red" ;;
      print endl ;;
      ret []
  | Some entries =>
      let case_numbers := fold_left scan_entry entries [] in
      ret (map to_string (std_sort case_numbers))
  end.

(** ** Reading a fixture *)

(** An input stream: the bytes not yet read and the two state bits the
    harness can set. *)
Record istream : Type := {
  buffer : string;
  eofbit : bool;
  failbit : bool
}.

Definition open_stream (bytes : string) : istream :=
  {| buffer := bytes; eofbit := false; failbit := false |}.

Definition good (s : istream) : bool := (negb (eofbit s) && negb (failbit s))%bool.

(** The characters up to the first newline, and what follows that newline
    ([None] when the bytes end before one is met). *)
Fixpoint read_line (bytes : string) : string * option string :=
  match bytes with
  | "" => ("", None)
  | String c bytes' =>
      if Ascii.eqb c LF then ("", Some bytes')
      else let '(line, rest) := read_line bytes' in (String c line, rest)
  end.

(** [std::getline(stream, str)]: the new [str] and the stream after it.  The
    newline is extracted and not stored; reaching the end sets [eofbit], and
    extracting nothing at all sets [failbit]. *)
Definition getline (s : istream) (str : string) : string * istream :=
  if good s then
    match read_line (buffer s) with
    | (line, Some rest) => (line, {| buffer := rest; eofbit := false; failbit := false |})
    | (line, None) => (line, {| buffer := ""; eofbit := true; failbit := (line =? "")%string |})
    end
  else (str, {| buffer := buffer s; eofbit := eofbit s; failbit := true |}).

(** [stream >> value] for an [int]: the new [value] and the stream after it.
    - A stream that is not good, or that ends while leading white space is
      skipped, fails before anything is stored: [value] keeps what it held.
    - No digit where a number should start: [0] is stored and [failbit] set.
    - A number outside [int]: the nearest bound is stored and [failbit] set. *)
Definition extract_int (s : istream) (value : Z) : Z * istream :=
  if good s then
    match skip_space (buffer s) with
    | "" => (value, {| buffer := ""; eofbit := true; failbit := true |})
    | bytes =>
        match signed_number bytes with
        | None => (0, {| buffer := bytes; eofbit := false; failbit := true |})
        | Some (v, rest) =>
            (Int.clamp v,
             {| buffer := rest; eofbit := (rest =? "")%string;
                failbit := negb (Int.in_range v) |})
        end
    end
  else (value, {| buffer := buffer s; eofbit := eofbit s; failbit := true |}).

(** [std::string read_file_content(const fs::path& filepath)] *)
Definition read_file_content (fs : filesystem) (filepath : string) : io string :=
  match ifstream fs filepath with
  | None => throw (std_exception ("Could not open file: " ++ filepath))
  | Some bytes => ret bytes
  end.

(** [trim_trailing] where it is called: a throwing [erase] would unwind. *)
Definition trim (s : string) : io string :=
  match trim_trailing s with
  | Some s' => ret s'
  | None => throw (std_exception "basic_string::erase")
  end.

Definition when (b : bool) (m : io unit) : io unit := if b then m else ret tt.

(** ** The case runner and the reporter *)

Section Harness.

(** The fixture directory. *)
Variable fs : filesystem.

(** [int solution(const std::string&, int)] of [solution.h], the routine
    under test: for each argument pair it returns an [int] or throws. *)
Variable solution : string -> Z -> completion Z.

(** What the uninitialised [int input_int] happens to hold. *)
Variable indeterminate : Z.

Definition SKIPPED_INPUT : string := "⚠️ SKIPPED (Input file not found)".
Definition SKIPPED_OUTPUT : string := "⚠️ SKIPPED (Output file not found)".
Definition FAILED : string := "❌ FAILED".
Definition PASSED : string := "✅ PASSED".

(** The [catch (const std::exception& e)] block of [run_test]. *)
Definition report_exception (what : string) : io bool :=
  print_colored FAILED "red" ;;
  print endl ;;
  print "   - Error: An exception occurred: " ;; print what ;; print endl ;;
  ret false.

(** Step 1 of [run_test], "Read input data", once the input file is open:
    [input_str] and [input_int] after the two reads. *)
Definition read_input (bytes : string) : string * Z :=
  let input_stream := open_stream bytes in
  let '(input_str, input_stream) := getline input_stream "" in
  let '(input_int, _) := extract_int input_stream indeterminate in
  (input_str, input_int).

(** Steps 2 to 4 of [run_test]: "Read expected output", "Call the user's
    solution function" and "Compare results". *)
Definition judge (out_file : string) (input : string * Z) : io bool :=
  let '(input_str, input_int) := input in
  if negb (exists_ fs out_file) then
    print_colored SKIPPED_OUTPUT "bold" ;;
    print endl ;;
    ret false
  else
    expected_output <- read_file_content fs out_file ;;
    expected_output <- trim expected_output ;;
    result <- call (solution input_str input_int) ;;
    actual_output <- trim (to_string result) ;;
    if (actual_output =? expected_output)%string then
      when FULL_LOGGING (print_colored PASSED "green" ;; print endl) ;;
      ret true
    else
      when FULL_LOGGING
        (print_colored FAILED "red" ;; print endl ;;
         print "   - Input          : text=" ;; print DQUOTE ;; print input_str ;;
         print DQUOTE ;; print ", n=" ;; print (to_string input_int) ;; print endl ;;
         print "   - Expected output: " ;; print expected_output ;; print endl ;;
         print "   - Actual output  : " ;; print actual_output ;; print endl) ;;
      ret false.

(** [bool run_test(const std::string& case_name)] *)
Definition run_test (case_name : string) : io bool :=
  let in_file := Path.append TESTS_DIR (case_name ++ ".in") in
  let out_file := Path.append TESTS_DIR (case_name ++ ".out") in
  when FULL_LOGGING
    (print "Running test '" ;; print case_name ;; print "'... ") ;;
  try_catch
    (match ifstream fs in_file with
     | None =>
         print_colored SKIPPED_INPUT "bold" ;;
         print endl ;;
         ret false
     | Some bytes => judge out_file (read_input bytes)
     end)
    report_exception.

(** The loop of [main] over the discovered cases: [passed_count] after it. *)
Fixpoint run_all (test_cases : list string) (passed_count : Z) : io Z :=
  match test_cases with
  | [] => ret passed_count
  | test_case :: rest =>
      passed <- run_test test_case ;;
      run_all rest (if passed then Int.wrap (passed_count + 1) else passed_count)
  end.

(** [int main()]: the value it returns is the exit status. *)
Definition main : io Z :=
  when FULL_LOGGING (print_colored "--- Starting C++ Tester ---" "bold" ;; print endl) ;;
  test_cases <- find_test_cases fs TESTS_DIR ;;
  match test_cases with
  | [] =>
      print "No test cases found in '" ;; print TESTS_DIR ;; print "'." ;; print endl ;;
      ret 0
  | _ =>
      passed_count <- run_all test_cases 0 ;;
      when FULL_LOGGING
        (print endl ;; print_colored "--- Test Summary ---" "bold" ;; print endl) ;;
      let total_count := Int.wrap (Z.of_nat (List.length test_cases)) in
      let summary_color := if passed_count =? total_count then "green" else "red" in
      print_colored
        ("Passed " ++ to_string passed_count ++ " out of "
           ++ to_string total_count ++ " tests.") summary_color ;;
      print endl ;;
      ret (if passed_count =? total_count then 0 else 1)
  end.

End Harness.

(** The process as its parent sees it: [main] returned an exit status, or an
    exception left [main] and [std::terminate] aborted the process. *)
Inductive process_end : Type :=
| Exited (status : Z) (console : string)
| Aborted (console : string).

Definition run_process (fs : filesystem) (solution : string -> Z -> completion Z)
    (indeterminate : Z) : process_end :=
  match main fs solution indeterminate "" with
  | (Return status, console) => Exited status console
  | (Throw _, console) => Aborted console
  end.

(** The cases [main] iterates over. *)
Definition discovered (fs : filesystem) : list string :=
  match fst (find_test_cases fs TESTS_DIR "") with
  | Return test_cases => test_cases
  | Throw _ => []
  end.

(** ** What the harness shows of a case *)

(** The text a computation writes on an empty console. *)
Definition written {A} (m : io A) : string := snd (m "").

Definition skipped_notice (reason : string) : string :=
  written (print_colored reason "bold" ;; print endl).

Definition failure_report (what : string) : string :=
  written (report_exception what).

Definition NO_CASES_NOTICE : string :=
  "No test cases found in 'tests/'." ++ endl.

(** What one call of [run_test], started on an empty console, amounts to. *)
Section Outcome.
Variable r : completion bool * string.

(** Passed: [run_test] returned [true]. *)
Definition Passed : Prop := fst r = Return true.

(** Skipped: [run_test] returned [false] after one of the two notices. *)
Definition Skipped_missing_input : Prop :=
  r = (Return false, skipped_notice SKIPPED_INPUT).
Definition Skipped_missing_output : Prop :=
  r = (Return false, skipped_notice SKIPPED_OUTPUT).
Definition Skipped : Prop := Skipped_missing_input \/ Skipped_missing_output.

(** Failed with a diagnostic: [run_test] returned [false] from its [catch]
    block, which wrote [what]. *)
Definition Failed_with (what : string) : Prop :=
  r = (Return false, failure_report what).

(** Failed on the comparison: [run_test] returned [false] and, logging
    being off, wrote nothing. *)
Definition Failed_mismatch : Prop := r = (Return false, "").

Definition Failed : Prop := Failed_mismatch \/ exists what, Failed_with what.

(** The exception left [run_test]. *)
Definition Escaped : Prop := exists e, fst r = Throw e.
End Outcome.

(** ** Vocabulary of the properties *)

(** [t] does not end in a stripped character. *)
Definition ends_clean (t : string) : Prop :=
  match StdString.last t with
  | Some c => StdString.contains WHITESPACE c = false
  | None => True
  end.

(** A computation is [framed] when the text already on the console has no
    part in what it does: it only appends to it. *)
Definition framed {A} (m : io A) : Prop :=
  forall out, m out = (fst (m ""), out ++ written m).

(** [returns m]: [m] completes by returning. *)
Definition returns {A} (m : io A) : Prop :=
  forall out, exists a, fst (m out) = Return a.

(** [std_only m]: whatever [m] throws derives from [std::exception]. *)
Definition std_only {A} (m : io A) : Prop :=
  forall out, fst (m out) <> Throw other_object.

(** The entries of the fixture directory, none when it is missing. *)
Definition entries_of (fs : filesystem) : list dir_entry :=
  match fs with Some entries => entries | None => [] end.

(** The number an entry adds to [case_numbers], if it adds one. *)
Definition accepted (entry : dir_entry) : option Z :=
  if (is_regular_file entry && (Path.extension (filename entry) =? ".in")%string)%bool
  then match stoi (Path.stem (filename entry)) with
       | Parsed num => Some num
       | invalid_argument | out_of_range => None
       end
  else None.

Definition accepted_numbers (entries : list dir_entry) : list Z :=
  flat_map (fun e => match accepted e with Some n => [n] | None => [] end) entries.

(** Does the case pass, and how many of a list do? *)
Definition passes (fs : filesystem) (solution : string -> Z -> completion Z)
    (indeterminate : Z) (case_name : string) : bool :=
  match fst (run_test fs solution indeterminate case_name "") with
  | Return true => true
  | _ => false
  end.

Definition count_passed (fs : filesystem) (solution : string -> Z -> completion Z)
    (indeterminate : Z) (test_cases : list string) : nat :=
  List.length (filter (passes fs solution indeterminate) test_cases).

(** What [main] does once discovery has returned [test_cases], logging
    being off (see [main_unfold]). *)
Definition report (fs : filesystem) (solution : string -> Z -> completion Z)
    (indeterminate : Z) (test_cases : list string) : io Z :=
  match test_cases with
  | [] =>
      print "No test cases found in '" ;; print TESTS_DIR ;; print "'." ;; print endl ;;
      ret 0
  | _ =>
      passed_count <- run_all fs solution indeterminate test_cases 0 ;;
      let total_count := Int.wrap (Z.of_nat (List.length test_cases)) in
      let summary_color := if passed_count =? total_count then "green" else "red" in
      print_colored
        ("Passed " ++ to_string passed_count ++ " out of "
           ++ to_string total_count ++ " tests.") summary_color ;;
      print endl ;;
      ret (if passed_count =? total_count then 0 else 1)
  end.

(** Is every character of [s] white space for [isspace]? *)
Fixpoint all_isspace (s : string) : bool :=
  match s with
  | "" => true
  | String c s' => (isspace c && all_isspace s')%bool
  end.

(** Is [s] free of newlines? *)
Fixpoint no_newline (s : string) : bool :=
  match s with
  | "" => true
  | String c s' => (negb (Ascii.eqb c LF) && no_newline s')%bool
  end.

(** The escape sequence [COLORS] holds under ["end"]. *)
Definition RESET : string := String ESC "[0m".

(** The summary line of [main] for [passed_count] of [total_count]. *)
Definition summary_line (passed_count total_count : Z) : string :=
  written
    (print_colored
       ("Passed " ++ to_string passed_count ++ " out of "
          ++ to_string total_count ++ " tests.")
       (if passed_count =? total_count then "green" else "red")) ++ endl.

(** A regular file with these bytes. *)
Definition file (name bytes : string) : dir_entry :=
  {| filename := name; is_regular_file := true; contents := Some bytes |}.

(** ** Fixtures and solutions to run the harness on *)

(** Scenario A of the specification, with a solution that doubles [n]. *)
Definition scenario_A : filesystem :=
  Some [file "1.in" ("hello" ++ endl ++ "5" ++ endl); file "1.out" ("10" ++ endl)].

Definition doubling (text : string) (n : Z) : completion Z := Return (2 * n).

(** Scenario B: an input fixture without its expected output. *)
Definition scenario_B : filesystem := Some [file "2.in" ("hello" ++ endl ++ "5" ++ endl)].

(** Scenario C: the solution throws. *)
Definition scenario_C : filesystem :=
  Some [file "3.in" ("hello" ++ endl ++ "5" ++ endl); file "3.out" ("10" ++ endl)].

Definition throwing_runtime_error (text : string) (n : Z) : completion Z :=
  Throw (std_exception "boom").

(** [throw 42;]: an object that is no [std::exception]. *)
Definition throwing_int (text : string) (n : Z) : completion Z := Throw other_object.


Definition echo_n (text : string) (n : Z) : completion Z := Return n.

Definition answer_42 (text : string) (n : Z) : completion Z := Return 42.

Definition fixture_42 : filesystem :=
  Some [file "9.in" ("life" ++ endl ++ "6" ++ endl);
        file "9.out" ("42" ++ endl ++ String CR endl)].

(** [007.in] alone, and [007.in] beside [7.in]. *)
Definition padded_fixture : filesystem :=
  Some [file "007.in" ("hello" ++ endl ++ "5" ++ endl)].

Definition padded_and_canonical_fixture : filesystem :=
  Some [file "007.in" ("hello" ++ endl ++ "5" ++ endl);
        file "7.in" ("hello" ++ endl ++ "5" ++ endl);
        file "7.out" ("10" ++ endl)].

(** An expected output that is there and cannot be read. *)
Definition unreadable_output_fixture : filesystem :=
  Some [file "3.in" ("hello" ++ endl ++ "5" ++ endl);
        {| filename := "3.out"; is_regular_file := false; contents := None |}].

(** A negative number in the input and in the expected output. *)
Definition negative_fixture : filesystem :=
  Some [file "4.in" ("abc" ++ endl ++ "-3" ++ endl);
        file "4.out" ("-6" ++ String SP endl)].

(** A first line and a blank second line. *)
Definition blank_second_line_fixture : filesystem :=
  Some [file "5.in" ("hello" ++ endl ++ "  " ++ endl); file "5.out" ("0" ++ endl)].

(** Scenarios A and B in one directory. *)
Definition two_case_fixture : filesystem :=
  Some [file "2.in" ("hello" ++ endl ++ "5" ++ endl);
        file "1.out" ("10" ++ endl);
        file "1.in" ("hello" ++ endl ++ "5" ++ endl)].


(** * Properties *)

(** ** Strings *)

Module StringFacts.
Lemma append_nil_r (s : string) : s ++ "" = s.
Proof. induction s as [|c s IH]; simpl; [reflexivity | now rewrite IH]. Qed.

Lemma append_assoc (a b c : string) : (a ++ b) ++ c = a ++ (b ++ c).
Proof. induction a as [|x a IH]; simpl; [reflexivity | now rewrite IH]. Qed.

Lemma append_inv_head (a b c : string) : a ++ b = a ++ c -> b = c.
Proof.
  induction a as [|x a IH]; simpl; intros H; [exact H|].
  injection H as H. now apply IH.
Qed.

Lemma length_append (a b : string) :
  String.length (a ++ b) = (String.length a + String.length b)%nat.
Proof. induction a as [|x a IH]; simpl; [reflexivity | now rewrite IH]. Qed.

Lemma append_inv_tail (a b c : string) : a ++ c = b ++ c -> a = b.
Proof.
  revert b. induction a as [|x a IH]; intros [|y b] H; simpl in H.
  - reflexivity.
  - apply (f_equal String.length) in H. simpl in H.
    rewrite length_append in H. lia.
  - apply (f_equal String.length) in H. simpl in H.
    rewrite length_append in H. lia.
  - injection H as -> H. f_equal. now apply IH.
Qed.

Lemma size_nonneg (s : string) : 0 <= StdString.size s.
Proof. unfold StdString.size. lia. Qed.

Lemma size_String (c : ascii) (s : string) :
  StdString.size (String c s) = StdString.size s + 1.
Proof. unfold StdString.size. simpl String.length. lia. Qed.

Lemma size_append (a b : string) :
  StdString.size (a ++ b) = StdString.size a + StdString.size b.
Proof. unfold StdString.size. rewrite length_append. lia. Qed.

Lemma take_append (t w : string) : StdString.take (String.length t) (t ++ w) = t.
Proof. induction t as [|c t IH]; simpl; [now destruct w | now rewrite IH]. Qed.

Lemma last_String (c : ascii) (s : string) :
  s <> "" -> StdString.last (String c s) = StdString.last s.
Proof. destruct s; [congruence | reflexivity]. Qed.

Lemma last_some_nonempty (s : string) (c : ascii) :
  StdString.last s = Some c -> s <> "".
Proof. destruct s; simpl; congruence. Qed.

Lemma last_none_empty (s : string) : StdString.last s = None -> s = "".
Proof.
  induction s as [|c s IH]; [reflexivity|].
  destruct s as [|d s]; [discriminate|].
  intros H. rewrite last_String in H by discriminate.
  apply IH in H. discriminate.
Qed.
End StringFacts.

(** ** Trailing-whitespace trim *)

Section Trim.
Import StringFacts.

Local Abbreviation npos := SizeT.npos.
Local Abbreviation flno s := (StdString.find_last_not_of s WHITESPACE).

Lemma npos_value : npos = 18446744073709551615.
Proof. reflexivity. Qed.

Lemma add_1_small (r : Z) : 0 <= r < npos -> SizeT.add r 1 = r + 1.
Proof.
  intros H. unfold SizeT.add, SizeT.modulus. rewrite npos_value in H.
  apply Z.mod_small. change (2 ^ 64) with 18446744073709551616. lia.
Qed.

Lemma add_1_npos : SizeT.add npos 1 = 0.
Proof. reflexivity. Qed.

(** The index found is [npos] or lies inside the string, whatever its size. *)
Lemma find_last_not_of_range (s : string) :
  flno s = npos \/ 0 <= flno s < StdString.size s /\ flno s < npos.
Proof.
  induction s as [|c s IH]; [now left|].
  cbn [StdString.find_last_not_of]. rewrite size_String.
  destruct (Z.eqb_spec (flno s) npos) as [E|E].
  - destruct (StdString.contains WHITESPACE c); [now left|].
    right. pose proof (size_nonneg s). rewrite npos_value. lia.
  - destruct IH as [IH|[IH1 IH2]]; [contradiction|].
    rewrite add_1_small by lia.
    destruct (Z.eq_dec (flno s + 1) npos) as [E'|E']; [now left|].
    right. lia.
Qed.

(** [erase] is never called past the end: [trim_trailing] does not throw. *)
Lemma trim_trailing_total (s : string) : exists t, trim_trailing s = Some t.
Proof.
  unfold trim_trailing, StdString.erase.
  destruct (find_last_not_of_range s) as [E|[H1 H2]].
  - rewrite E, add_1_npos.
    destruct (Z.ltb_spec (StdString.size s) 0) as [L|L]; [|eauto].
    pose proof (size_nonneg s). lia.
  - rewrite add_1_small by lia.
    destruct (Z.ltb_spec (StdString.size s) (flno s + 1)) as [L|L]; [lia | eauto].
Qed.

Lemma find_last_not_of_whitespace (w : string) :
  StdString.all_in WHITESPACE w = true -> flno w = npos.
Proof.
  induction w as [|c w IH]; [reflexivity|].
  cbn [StdString.all_in StdString.find_last_not_of].
  intros H. apply andb_prop in H as [Hc Hw].
  rewrite (IH Hw), Z.eqb_refl, Hc. reflexivity.
Qed.

(** On [t ++ w] with [w] a run of stripped characters and [t] ending in
    another character, the index found is the last one of [t]. *)
Lemma find_last_not_of_append (t w : string) (c : ascii) :
  StdString.size t < npos ->
  StdString.all_in WHITESPACE w = true ->
  StdString.last t = Some c ->
  StdString.contains WHITESPACE c = false ->
  flno (t ++ w) = StdString.size t - 1.
Proof.
  intros Hsize Hw. revert c Hsize.
  induction t as [|x t IH]; intros c Hsize Hlast Hc; [discriminate|].
  rewrite size_String in *. cbn [append StdString.find_last_not_of].
  destruct t as [|y t].
  - cbn [append]. rewrite (find_last_not_of_whitespace w Hw), Z.eqb_refl.
    simpl in Hlast. injection Hlast as ->. rewrite Hc. reflexivity.
  - assert (Hl : StdString.last (String y t) = Some c)
      by (rewrite <- Hlast; symmetry; apply last_String; congruence).
    specialize (IH c ltac:(lia) Hl Hc).
    pose proof (size_nonneg t) as Hn. rewrite size_String in *.
    rewrite IH.
    destruct (Z.eqb_spec (StdString.size t + 1 - 1) npos) as [E|E]; [lia|].
    rewrite add_1_small by lia. lia.
Qed.

(** Trimming [t ++ w] gives back [t]. *)
Lemma trim_trailing_append (t w : string) :
  StdString.size (t ++ w) < npos ->
  StdString.all_in WHITESPACE w = true ->
  ends_clean t ->
  trim_trailing (t ++ w) = Some t.
Proof.
  intros Hsize Hw Hclean. rewrite size_append in Hsize.
  pose proof (size_nonneg t) as Ht. pose proof (size_nonneg w) as Hw'.
  unfold trim_trailing, StdString.erase. unfold ends_clean in Hclean.
  destruct (StdString.last t) as [c|] eqn:Hlast.
  - rewrite (find_last_not_of_append t w c) by (assumption || lia).
    assert (Hpos : 0 < StdString.size t).
    { destruct t; [discriminate | rewrite size_String; pose proof (size_nonneg t); lia]. }
    rewrite add_1_small by lia. rewrite size_append.
    destruct (Z.ltb_spec (StdString.size t + StdString.size w)
                (StdString.size t - 1 + 1)) as [L|L]; [lia|].
    replace (Z.to_nat (StdString.size t - 1 + 1)) with (String.length t)
      by (unfold StdString.size; lia).
    now rewrite take_append.
  - apply last_none_empty in Hlast as ->.
    cbn [append]. rewrite (find_last_not_of_whitespace w Hw), add_1_npos.
    destruct (Z.ltb_spec (StdString.size w) 0) as [L|L]; [lia|].
    now destruct w.
Qed.

(** Every string is a clean part followed by a run of stripped characters. *)
Lemma clean_part_exists (s : string) :
  exists t w, s = t ++ w /\ StdString.all_in WHITESPACE w = true /\ ends_clean t.
Proof.
  induction s as [|c s (t & w & -> & Hw & Hclean)].
  - exists "", "". repeat split.
  - destruct t as [|y t].
    + destruct (StdString.contains WHITESPACE c) eqn:Hc.
      * exists "", (String c w). repeat split.
        cbn [StdString.all_in]. now rewrite Hc, Hw.
      * exists (String c ""), w. repeat split; [assumption|].
        unfold ends_clean. simpl. exact Hc.
    + exists (String c (String y t)), w. repeat split; [assumption|].
      unfold ends_clean in *. rewrite last_String; [assumption | discriminate].
Qed.

Lemma whitespace_chars (c : ascii) :
  StdString.contains WHITESPACE c = true <-> c = SP \/ c = LF \/ c = CR \/ c = HT.
Proof.
  unfold WHITESPACE. cbn [StdString.contains].
  rewrite !orb_true_iff, !Ascii.eqb_eq. intuition discriminate.
Qed.
End Trim.

(** C7. [trim_trailing] returns a prefix [t] of its argument [s]: what it
    removes is a suffix [w] made only of spaces, newlines, carriage returns
    and tabs, and it removes all of that run ([t] does not end in one of the
    four).  Every character before the run keeps its place, and a string that
    does not end in one of the four comes back unchanged. *)
Theorem trim_trailing_removes_trailing_run (s : string)
    (Hsize : StdString.size s < SizeT.npos) :
  exists t w,
    trim_trailing s = Some t /\
    s = t ++ w /\
    (forall i c, String.get i t = Some c -> String.get i s = Some c) /\
    StdString.all_in WHITESPACE w = true /\
    (forall c, StdString.contains WHITESPACE c = true <->
               c = SP \/ c = LF \/ c = CR \/ c = HT) /\
    ends_clean t /\
    (ends_clean s -> t = s).
Proof.
  destruct (clean_part_exists s) as (t & w & -> & Hw & Hclean).
  exists t, w. split; [now apply trim_trailing_append|].
  split; [reflexivity|]. split.
  { intros i c H. rewrite <- H. symmetry. apply String.append_correct1.
    clear - H. revert i H. induction t as [|x t IH]; intros [|i] H; simpl in *;
      try discriminate; [lia|]. apply IH in H. lia. }
  split; [assumption|]. split; [apply whitespace_chars|]. split; [assumption|].
  intros Hs. rewrite <- (StringFacts.append_nil_r t) at 1.
  assert (Some (t ++ "") = Some (t ++ w)) as E; [|now injection E].
  rewrite StringFacts.append_nil_r. rewrite <- (trim_trailing_append t w) by assumption.
  rewrite <- (StringFacts.append_nil_r (t ++ w)) at 1.
  apply trim_trailing_append; [|reflexivity|assumption].
  now rewrite StringFacts.append_nil_r.
Qed.

Lemma trim_trailing_removes_trailing_run_witness :
  exists t w,
    trim_trailing (" a b" ++ String HT (String SP endl)) = Some t /\
    " a b" ++ String HT (String SP endl) = t ++ w /\
    (forall i c, String.get i t = Some c ->
       String.get i (" a b" ++ String HT (String SP endl)) = Some c) /\
    StdString.all_in WHITESPACE w = true /\
    (forall c, StdString.contains WHITESPACE c = true <->
               c = SP \/ c = LF \/ c = CR \/ c = HT) /\
    ends_clean t /\
    (ends_clean (" a b" ++ String HT (String SP endl)) -> t = " a b" ++ String HT (String SP endl)).
Proof.
  apply (trim_trailing_removes_trailing_run (" a b" ++ String HT (String SP endl))).
  vm_compute. reflexivity.
Defined.

(** ** Console computations *)

Section Framed.
Import StringFacts.
Context {A B : Type}.

Lemma framed_ret (a : A) : framed (ret a).
Proof. intros out. unfold ret, written. simpl. now rewrite append_nil_r. Qed.

Lemma framed_throw (e : thrown) : framed (@throw A e).
Proof. intros out. unfold throw, written. simpl. now rewrite append_nil_r. Qed.

Lemma framed_call (c : completion A) : framed (call c).
Proof. intros out. unfold call, written. simpl. now rewrite append_nil_r. Qed.

Lemma framed_bind (m : io A) (k : A -> io B) :
  framed m -> (forall a, framed (k a)) -> framed (bind m k).
Proof.
  intros Hm Hk out. unfold written, bind. rewrite (Hm out).
  destruct (m "") as [[a|e] w] eqn:E; unfold written; rewrite E; simpl.
  - rewrite (Hk a (out ++ w)), (Hk a w). simpl. now rewrite append_assoc.
  - reflexivity.
Qed.

Lemma framed_try_catch (body : io A) (handler : string -> io A) :
  framed body -> (forall what, framed (handler what)) ->
  framed (try_catch body handler).
Proof.
  intros Hm Hk out. unfold written, try_catch. rewrite (Hm out).
  destruct (body "") as [[a|[what|]] w] eqn:E; unfold written; rewrite E; simpl;
    try reflexivity.
  rewrite (Hk what (out ++ w)), (Hk what w). simpl. now rewrite append_assoc.
Qed.
End Framed.

Lemma framed_print (text : string) : framed (print text).
Proof. intros out. reflexivity. Qed.

Ltac framed_step :=
  first
    [ apply framed_ret | apply framed_throw | apply framed_call | apply framed_print
    | apply framed_bind; [|intros ?]
    | apply framed_try_catch; [|intros ?]
    | match goal with
      | |- framed (match ?x with _ => _ end) => destruct x
      | |- framed (if ?b then _ else _) => destruct b
      | |- framed (let '(_, _) := ?x in _) => destruct x
      end ].

Lemma framed_map_at (m : list (string * string)) (key : string) : framed (map_at m key).
Proof. unfold map_at. repeat framed_step. Qed.

Lemma framed_print_colored (text color_name : string) :
  framed (print_colored text color_name).
Proof. unfold print_colored. repeat (apply framed_map_at || framed_step). Qed.

Lemma framed_when (b : bool) (m : io unit) : framed m -> framed (when b m).
Proof. intros H. unfold when. destruct b; [exact H | apply framed_ret]. Qed.

Lemma framed_trim (s : string) : framed (trim s).
Proof. unfold trim. repeat framed_step. Qed.

Lemma framed_read_file_content (fs : filesystem) (filepath : string) :
  framed (read_file_content fs filepath).
Proof. unfold read_file_content. repeat framed_step. Qed.

Ltac framed :=
  repeat first
    [ apply framed_print_colored | apply framed_trim | apply framed_read_file_content
    | apply framed_when | framed_step ].

Lemma framed_find_test_cases (fs : filesystem) (directory : string) :
  framed (find_test_cases fs directory).
Proof. unfold find_test_cases. framed. Qed.

Section HarnessFramed.
Variable fs : filesystem.
Variable solution : string -> Z -> completion Z.
Variable indeterminate : Z.

Lemma framed_report_exception (what : string) : framed (report_exception what).
Proof. unfold report_exception. framed. Qed.

Lemma framed_judge (out_file : string) (input : string * Z) :
  framed (judge fs solution out_file input).
Proof. unfold judge. framed. Qed.

Lemma framed_run_test (case_name : string) :
  framed (run_test fs solution indeterminate case_name).
Proof.
  unfold run_test. framed;
    apply framed_judge || apply framed_report_exception.
Qed.
End HarnessFramed.

(** [print_colored] always returns, having written the colour code, the text
    and the reset code. *)
Lemma print_colored_run (text color_name out : string) :
  print_colored text color_name out
  = (Return tt, out ++ written (print_colored text color_name)).
Proof.
  rewrite (framed_print_colored text color_name out). f_equal.
Qed.

(** ** Sorting *)

Section Sorting.
Lemma insert_sorted_perm (x : Z) (l : list Z) : Permutation (insert_sorted x l) (x :: l).
Proof.
  induction l as [|y l IH]; simpl; [reflexivity|].
  destruct (x <=? y); [reflexivity|].
  rewrite IH. apply perm_swap.
Qed.

Lemma std_sort_perm (l : list Z) : Permutation (std_sort l) l.
Proof.
  induction l as [|x l IH]; simpl; [reflexivity|].
  rewrite insert_sorted_perm. now constructor.
Qed.

Lemma insert_sorted_sorted (x : Z) (l : list Z) :
  StronglySorted Z.le l -> StronglySorted Z.le (insert_sorted x l).
Proof.
  induction 1 as [|y l Hs IH Hy]; simpl.
  - repeat constructor.
  - destruct (Z.leb_spec x y) as [L|L].
    + constructor; [now constructor|].
      constructor; [assumption|].
      eapply Forall_impl; [|exact Hy]. intros; lia.
    + constructor; [assumption|].
      eapply Permutation_Forall; [symmetry; apply insert_sorted_perm|].
      constructor; [lia | assumption].
Qed.

Lemma std_sort_sorted (l : list Z) : StronglySorted Z.le (std_sort l).
Proof.
  induction l as [|x l IH]; simpl; [constructor | now apply insert_sorted_sorted].
Qed.

Lemma sorted_perm_eq (l1 l2 : list Z) :
  StronglySorted Z.le l1 -> StronglySorted Z.le l2 -> Permutation l1 l2 -> l1 = l2.
Proof.
  intros H1. revert l2.
  induction H1 as [|a l1 Hs1 IH Ha]; intros l2 H2 P.
  - apply Permutation_nil in P. now subst.
  - destruct H2 as [|b l2 Hs2 Hb].
    + symmetry in P. now apply Permutation_nil in P.
    + assert (a = b) as <-.
      { assert (Ia : In a (b :: l2)) by (eapply Permutation_in; [exact P | now left]).
        assert (Ib : In b (a :: l1))
          by (eapply Permutation_in; [symmetry; exact P | now left]).
        rewrite Forall_forall in Ha, Hb.
        destruct Ia as [->|Ia]; [reflexivity|].
        destruct Ib as [->|Ib]; [reflexivity|].
        specialize (Ha _ Ib). specialize (Hb _ Ia). lia. }
      f_equal. apply IH; [assumption|]. now apply Permutation_cons_inv in P.
Qed.

(** Whatever algorithm [std::sort] runs, the vector it leaves is this one. *)
Lemma std_sort_unique (l l' : list Z) :
  Permutation l' l -> StronglySorted Z.le l' -> l' = std_sort l.
Proof.
  intros P S. apply sorted_perm_eq; [assumption | apply std_sort_sorted|].
  rewrite P. symmetry. apply std_sort_perm.
Qed.
End Sorting.

(** ** Case discovery *)

Section Discovery.
Lemma to_string_inj (a b : Z) : to_string a = to_string b -> a = b.
Proof.
  unfold to_string. intros H. apply DecimalZ.to_int_inj.
  apply (f_equal NilEmpty.int_of_string) in H.
  rewrite !NilEmpty.isi in H. congruence.
Qed.

Lemma scan_entry_accepted (case_numbers : list Z) (entry : dir_entry) :
  scan_entry case_numbers entry
  = (case_numbers ++ match accepted entry with Some n => [n] | None => [] end)%list.
Proof.
  unfold scan_entry, accepted.
  destruct (is_regular_file entry && _)%bool; [|now rewrite app_nil_r].
  destruct (stoi _); now rewrite ?app_nil_r.
Qed.

Lemma fold_scan_entry (entries : list dir_entry) (case_numbers : list Z) :
  fold_left scan_entry entries case_numbers
  = (case_numbers ++ accepted_numbers entries)%list.
Proof.
  revert case_numbers. induction entries as [|e entries IH]; intros acc; simpl.
  - now rewrite app_nil_r.
  - rewrite IH, scan_entry_accepted. now rewrite <- app_assoc.
Qed.

Lemma discovered_eq (fs : filesystem) :
  discovered fs = map to_string (std_sort (accepted_numbers (entries_of fs))).
Proof.
  unfold discovered, find_test_cases, directory_iterator.
  rewrite String.eqb_refl. destruct fs as [entries|]; [|reflexivity].
  simpl. now rewrite fold_scan_entry.
Qed.

Lemma find_test_cases_run (fs : filesystem) (out : string) :
  find_test_cases fs TESTS_DIR out
  = (Return (discovered fs), out ++ written (find_test_cases fs TESTS_DIR)).
Proof.
  rewrite (framed_find_test_cases fs TESTS_DIR out). f_equal.
  unfold discovered. destruct fs; reflexivity.
Qed.

Lemma accepted_numbers_In (entries : list dir_entry) (n : Z) :
  In n (accepted_numbers entries) <-> exists e, In e entries /\ accepted e = Some n.
Proof.
  unfold accepted_numbers. rewrite in_flat_map. split.
  - intros (e & He & Hn). exists e. split; [assumption|].
    destruct (accepted e); simpl in Hn; intuition congruence.
  - intros (e & He & Hn). exists e. split; [assumption|]. rewrite Hn. now left.
Qed.

Lemma accepted_iff (e : dir_entry) (n : Z) :
  accepted e = Some n <->
  is_regular_file e = true /\ Path.extension (filename e) = ".in" /\
  stoi (Path.stem (filename e)) = Parsed n.
Proof.
  unfold accepted. split.
  - destruct (is_regular_file e); [|discriminate]. simpl.
    destruct (String.eqb_spec (Path.extension (filename e)) ".in"); [|discriminate].
    destruct (stoi _); intros H; inversion H; auto.
  - intros (-> & -> & ->). reflexivity.
Qed.

(** The names discovered are the decimal forms of the numbers that
    [std::stoi] reads off the stems of the regular [.in] files. *)
Lemma discovered_In (fs : filesystem) (name : string) :
  In name (discovered fs) <->
  exists e n, In e (entries_of fs) /\ is_regular_file e = true /\
              Path.extension (filename e) = ".in" /\
              stoi (Path.stem (filename e)) = Parsed n /\ name = to_string n.
Proof.
  rewrite discovered_eq, in_map_iff. split.
  - intros (n & <- & Hn).
    eapply Permutation_in in Hn; [|apply std_sort_perm].
    apply accepted_numbers_In in Hn as (e & He & Ha).
    apply accepted_iff in Ha as (? & ? & ?). exists e, n. auto.
  - intros (e & n & He & Hr & Hx & Hs & ->). exists n. split; [reflexivity|].
    eapply Permutation_in; [symmetry; apply std_sort_perm|].
    apply accepted_numbers_In. exists e. split; [assumption|].
    apply accepted_iff. auto.
Qed.
(** *** [std::stoi] reads back what [std::to_string] writes *)

Lemma digits_of_uint_acc (d : Decimal.uint) (acc : positive) :
  digits (NilEmpty.string_of_uint d) (Zpos acc) = (Zpos (Pos.of_uint_acc d acc), "").
Proof.
  revert acc. induction d as [|d IH|d IH|d IH|d IH|d IH|d IH|d IH|d IH|d IH|d IH];
    intros acc; [reflexivity|..];
    cbn [NilEmpty.string_of_uint Pos.of_uint_acc digits];
    match goal with
    | |- context [isdigit ?c] => change (isdigit c) with true; cbn iota
    end;
    rewrite <- IH; f_equal;
    match goal with
    | |- context [digit_value ?c] =>
        let v := eval vm_compute in (digit_value c) in
        change (digit_value c) with v
    end; lia.
Qed.

Lemma digits_of_uint (d : Decimal.uint) :
  digits (NilEmpty.string_of_uint d) 0 = (Z.of_N (Pos.of_uint d), "").
Proof.
  induction d as [|d IH|d IH|d IH|d IH|d IH|d IH|d IH|d IH|d IH|d IH];
    [reflexivity | exact IH |..];
    cbn [NilEmpty.string_of_uint Pos.of_uint digits];
    match goal with
    | |- context [isdigit ?c] => change (isdigit c) with true; cbn iota
    end;
    cbn [Z.of_N]; rewrite <- digits_of_uint_acc; reflexivity.
Qed.

Lemma signed_number_of_uint (d : Decimal.uint) :
  d <> Decimal.Nil ->
  signed_number (skip_space (NilEmpty.string_of_uint d))
  = Some (digits (NilEmpty.string_of_uint d) 0).
Proof.
  intros Hd.
  assert (H : forall s v rest, digits s 0 = (v, rest) ->
                (let '(v, rest) := digits s 0 in Some (v, rest)) = Some (digits s 0))
    by (intros s v rest ->; reflexivity).
  destruct d; [congruence|..];
    (etransitivity; [|eapply H; apply surjective_pairing]); reflexivity.
Qed.

Lemma signed_number_minus_uint (d : Decimal.uint) :
  d <> Decimal.Nil ->
  signed_number (skip_space (String "-" (NilEmpty.string_of_uint d)))
  = Some (- fst (digits (NilEmpty.string_of_uint d) 0),
          snd (digits (NilEmpty.string_of_uint d) 0)).
Proof.
  intros Hd.
  assert (H : forall s, (let '(v, rest) := digits s 0 in Some (- v, rest))
                        = Some (- fst (digits s 0), snd (digits s 0)))
    by (intros s; now destruct (digits s 0)).
  destruct d; [congruence|..]; (etransitivity; [|apply H]); reflexivity.
Qed.

(** Round trip: an [int] written by [std::to_string] is read back by
    [std::stoi]. *)
Lemma stoi_to_string (n : Z) : Int.in_range n = true -> stoi (to_string n) = Parsed n.
Proof.
  intros Hn. unfold stoi, to_string. destruct n as [|p|p]; [reflexivity|..].
  - cbn [Z.to_int NilEmpty.string_of_int].
    rewrite signed_number_of_uint by apply DecimalPos.Unsigned.to_uint_nonnil.
    rewrite digits_of_uint, DecimalPos.Unsigned.of_to. cbn [Z.of_N].
    now rewrite Hn.
  - cbn [Z.to_int NilEmpty.string_of_int].
    rewrite signed_number_minus_uint by apply DecimalPos.Unsigned.to_uint_nonnil.
    rewrite digits_of_uint, DecimalPos.Unsigned.of_to. cbn [Z.of_N fst snd Z.opp].
    now rewrite Hn.
Qed.

Lemma stoi_in_range (s : string) (n : Z) : stoi s = Parsed n -> Int.in_range n = true.
Proof.
  unfold stoi. destruct (signed_number _) as [[v rest]|]; [|discriminate].
  destruct (Int.in_range v) eqn:E; [|discriminate]. now intros [= <-].
Qed.

Lemma accepted_numbers_in_range (entries : list dir_entry) :
  Forall (fun n => Int.in_range n = true) (accepted_numbers entries).
Proof.
  apply Forall_forall. intros n Hn.
  apply accepted_numbers_In in Hn as (e & _ & Ha).
  apply accepted_iff in Ha as (_ & _ & Hs). now apply stoi_in_range in Hs.
Qed.

End Discovery.


(** C2, as the code has it.  The discovered names are the decimal forms of a
    list of [int]s that is sorted ascending and holds one number for each
    accepted input file; [std::stoi] reads each name back as its number.  So
    the names are free of duplicates exactly when no two accepted files parse
    to the same number. *)
Theorem discovered_sorted_one_per_file (fs : filesystem) :
  exists nums,
    discovered fs = map to_string nums /\
    map stoi (discovered fs) = map Parsed nums /\
    StronglySorted Z.le nums /\
    Permutation nums (accepted_numbers (entries_of fs)) /\
    (NoDup (discovered fs) <-> NoDup (accepted_numbers (entries_of fs))).
Proof.
  exists (std_sort (accepted_numbers (entries_of fs))).
  split; [apply discovered_eq|]. split.
  { rewrite discovered_eq, map_map. apply map_ext_in. intros n Hn.
    apply stoi_to_string.
    eapply Permutation_in in Hn; [|apply std_sort_perm].
    pose proof (accepted_numbers_in_range (entries_of fs)) as H.
    rewrite Forall_forall in H. now apply H. }
  split; [apply std_sort_sorted|].
  split; [apply std_sort_perm|]. rewrite discovered_eq. split.
  - intros H. apply NoDup_map_inv in H.
    eapply Permutation_NoDup; [apply std_sort_perm | exact H].
  - intros H. apply Finite.Injective_map_NoDup.
    + intros a b. apply to_string_inj.
    + eapply Permutation_NoDup; [symmetry; apply std_sort_perm | exact H].
Qed.

(** C2 fails as stated: with [1.in] and [01.in] in the directory the name
    ["1"] is discovered twice. *)
Lemma discovered_duplicate_counterexample :
  discovered (Some [file "1.in" ""; file "01.in" ""]) = ["1"; "1"] /\
  ~ NoDup (discovered (Some [file "1.in" ""; file "01.in" ""])).
Proof.
  split; [reflexivity|].
  change (discovered (Some [file "1.in" ""; file "01.in" ""])) with ["1"; "1"].
  intros H. inversion H as [|x l Hin _]; subst. apply Hin. now left.
Qed.

(** C3 at a stem that merely begins with digits: the regular file
    [1abc.in] is not excluded, [std::stoi] reads [1] off its stem and the
    case ["1"] is discovered. *)
Theorem digit_prefixed_stem_is_discovered :
  Path.stem "1abc.in" = "1abc" /\
  stoi "1abc" = Parsed 1 /\
  discovered (Some [file "1abc.in" ""]) = ["1"].
Proof. repeat split. Qed.

(** ** Computations that throw nothing but [std::exception]s *)

Section StdOnly.
Context {A B : Type}.

Lemma returns_std_only (m : io A) : returns m -> std_only m.
Proof. intros H out. destruct (H out) as [a ->]. discriminate. Qed.

Lemma returns_ret (a : A) : returns (ret a).
Proof. intros out. now exists a. Qed.

Lemma returns_bind (m : io A) (k : A -> io B) :
  returns m -> (forall a, returns (k a)) -> returns (bind m k).
Proof.
  intros Hm Hk out. unfold bind. destruct (Hm out) as [a Ha].
  destruct (m out) as [c out']. simpl in Ha. subst c. apply Hk.
Qed.

Lemma std_only_throw (what : string) : std_only (@throw A (std_exception what)).
Proof. intros out. discriminate. Qed.

Lemma std_only_bind (m : io A) (k : A -> io B) :
  std_only m -> (forall a, std_only (k a)) -> std_only (bind m k).
Proof.
  intros Hm Hk out. unfold bind. specialize (Hm out).
  destruct (m out) as [[a|e] out']; simpl in *; [apply Hk | congruence].
Qed.

Lemma returns_try_catch (body : io A) (handler : string -> io A) :
  std_only body -> (forall what, returns (handler what)) ->
  returns (try_catch body handler).
Proof.
  intros Hm Hk out. unfold try_catch. specialize (Hm out).
  destruct (body out) as [[a|[what|]] out']; simpl in *.
  - now exists a.
  - apply Hk.
  - congruence.
Qed.
End StdOnly.

Lemma returns_print (text : string) : returns (print text).
Proof. intros out. now exists tt. Qed.

Lemma returns_print_colored (text color_name : string) :
  returns (print_colored text color_name).
Proof. intros out. exists tt. now rewrite print_colored_run. Qed.

Lemma returns_when (b : bool) (m : io unit) : returns m -> returns (when b m).
Proof. intros H. destruct b; [exact H | apply returns_ret]. Qed.

Lemma returns_trim (s : string) : returns (trim s).
Proof.
  unfold trim. destruct (trim_trailing_total s) as [t ->]. apply returns_ret.
Qed.

Lemma std_only_read_file_content (fs : filesystem) (filepath : string) :
  std_only (read_file_content fs filepath).
Proof.
  unfold read_file_content. destruct (ifstream fs filepath).
  - apply returns_std_only, returns_ret.
  - apply std_only_throw.
Qed.

Ltac returns :=
  repeat first
    [ apply returns_ret | apply returns_print | apply returns_print_colored
    | apply returns_trim | apply returns_when
    | apply returns_bind; [|intros ?] ].

(** ** The case runner *)

Section Runner.
Import StringFacts.
Variable fs : filesystem.
Variable solution : string -> Z -> completion Z.
Variable indeterminate : Z.

Local Abbreviation run_test' := (run_test fs solution indeterminate).
Local Abbreviation judge' := (judge fs solution).
Local Abbreviation in_file case_name := (Path.append TESTS_DIR (case_name ++ ".in")).
Local Abbreviation out_file case_name := (Path.append TESTS_DIR (case_name ++ ".out")).

Lemma ifstream_exists (path bytes : string) :
  ifstream fs path = Some bytes -> exists_ fs path = true.
Proof. unfold ifstream, exists_. now destruct (resolve fs path). Qed.

Lemma returns_report_exception (what : string) : returns (report_exception what).
Proof. unfold report_exception. returns. Qed.

(** With logging off, [run_test] is its [try] block under its [catch]. *)
Lemma run_test_unfold (case_name out : string) :
  run_test' case_name out
  = try_catch
      (match ifstream fs (in_file case_name) with
       | None => print_colored SKIPPED_INPUT "bold" ;; print endl ;; ret false
       | Some bytes => judge' (out_file case_name) (read_input indeterminate bytes)
       end)
      report_exception out.
Proof. reflexivity. Qed.

Lemma run_test_missing_input (case_name out : string) :
  ifstream fs (in_file case_name) = None ->
  run_test' case_name out = (Return false, out ++ skipped_notice SKIPPED_INPUT).
Proof.
  intros H. rewrite (framed_run_test fs solution indeterminate case_name out).
  unfold written. rewrite !run_test_unfold, H. reflexivity.
Qed.

Lemma judge_missing_output (path : string) (input : string * Z) (out : string) :
  exists_ fs path = false ->
  judge' path input out = (Return false, out ++ skipped_notice SKIPPED_OUTPUT).
Proof.
  intros H. rewrite (framed_judge fs solution path input out).
  unfold written, judge. destruct input as [input_str input_int].
  rewrite H. reflexivity.
Qed.

(** The solution returned: the comparison decides. *)
Lemma judge_returned (path input_str : string) (input_int : Z)
    (expected : string) (result : Z) (out : string) :
  ifstream fs path = Some expected ->
  solution input_str input_int = Return result ->
  exists actual_output expected_output,
    trim_trailing (to_string result) = Some actual_output /\
    trim_trailing expected = Some expected_output /\
    judge' path (input_str, input_int) out
    = (Return (actual_output =? expected_output)%string, out).
Proof.
  intros Hout Hsol.
  destruct (trim_trailing_total (to_string result)) as [a Ha].
  destruct (trim_trailing_total expected) as [e He].
  exists a, e. split; [assumption|]. split; [assumption|].
  rewrite (framed_judge fs solution path (input_str, input_int) out).
  unfold written, judge, read_file_content, trim, call.
  rewrite (ifstream_exists _ _ Hout), Hout. cbn [negb bind ret fst snd].
  rewrite He. cbn [bind ret fst snd]. rewrite Hsol. cbn [bind ret fst snd].
  rewrite Ha. cbn [bind ret fst snd].
  destruct (a =? e)%string; cbn; now rewrite append_nil_r.
Qed.

(** The solution threw: so does [judge], having written nothing. *)
Lemma judge_threw (path input_str : string) (input_int : Z)
    (expected : string) (e : thrown) (out : string) :
  ifstream fs path = Some expected ->
  solution input_str input_int = Throw e ->
  judge' path (input_str, input_int) out = (Throw e, out).
Proof.
  intros Hout Hsol.
  destruct (trim_trailing_total expected) as [t He].
  rewrite (framed_judge fs solution path (input_str, input_int) out).
  unfold written, judge, read_file_content, trim, call.
  rewrite (ifstream_exists _ _ Hout), Hout. cbn [negb bind ret fst snd].
  rewrite He. cbn [bind ret fst snd]. rewrite Hsol. cbn [bind ret fst snd].
  now rewrite append_nil_r.
Qed.

Lemma report_exception_run (what out : string) :
  report_exception what out = (Return false, out ++ failure_report what).
Proof.
  rewrite (framed_report_exception what out). reflexivity.
Qed.

(** A solution that throws only [std::exception]s cannot make [judge]
    throw anything else. *)
Lemma std_only_judge (path : string) (input : string * Z) :
  (forall s n, solution s n <> Throw other_object) ->
  std_only (judge' path input).
Proof.
  intros Hsol. unfold judge. destruct input as [input_str input_int].
  destruct (negb (exists_ fs path)).
  - apply returns_std_only. returns.
  - apply std_only_bind; [apply std_only_read_file_content | intros expected].
    apply std_only_bind; [apply returns_std_only, returns_trim | intros e].
    apply std_only_bind; [intros out; apply Hsol | intros result].
    apply returns_std_only.
    apply returns_bind; [apply returns_trim | intros a].
    destruct (a =? e)%string; returns.
Qed.

Lemma returns_run_test (case_name : string) :
  (forall s n, solution s n <> Throw other_object) ->
  returns (run_test' case_name).
Proof.
  intros Hsol out. rewrite run_test_unfold. revert out.
  apply returns_try_catch; [|apply returns_report_exception].
  destruct (ifstream fs (in_file case_name)).
  - now apply std_only_judge.
  - apply returns_std_only. returns.
Qed.

Lemma run_test_opened (case_name bytes out : string) :
  ifstream fs (in_file case_name) = Some bytes ->
  run_test' case_name out
  = try_catch (judge' (out_file case_name) (read_input indeterminate bytes))
      report_exception out.
Proof. intros H. now rewrite run_test_unfold, H. Qed.



(** C5, as the code has it.  When the solution is called and throws an
    object derived from [std::exception], [run_test] catches it, returns
    [false] and has written the failure report, which ends with the
    exception's [what()]; the loop of [main] goes on with the next case and
    an unchanged count. *)
Theorem std_exception_is_failed (case_name bytes expected what out : string)
    (Hopen : ifstream fs (in_file case_name) = Some bytes)
    (Hout : ifstream fs (out_file case_name) = Some expected)
    (Hthrow : solution (fst (read_input indeterminate bytes))
                (snd (read_input indeterminate bytes))
              = Throw (std_exception what)) :
  run_test' case_name out = (Return false, out ++ failure_report what) /\
  Failed (run_test' case_name "") /\
  failure_report what
  = written (print_colored FAILED "red") ++ endl
      ++ "   - Error: An exception occurred: " ++ what ++ endl /\
  (forall rest passed_count,
     run_all fs solution indeterminate (case_name :: rest) passed_count out
     = run_all fs solution indeterminate rest passed_count
         (out ++ failure_report what)).
Proof.
  assert (Hrun : forall o, run_test' case_name o
                           = (Return false, o ++ failure_report what)).
  { intros o. rewrite (run_test_opened case_name bytes o Hopen). unfold try_catch.
    destruct (read_input indeterminate bytes) as [input_str input_int].
    rewrite (judge_threw _ input_str input_int expected _ o Hout Hthrow).
    apply report_exception_run. }
  split; [apply Hrun|]. split.
  { right. exists what. unfold Failed_with. now rewrite Hrun. }
  split; [reflexivity|].
  intros rest passed_count. cbn [run_all]. unfold bind at 1. now rewrite Hrun.
Qed.

(** C8.  The expected-output file holds ["42"] and then any run of spaces,
    newlines, carriage returns and tabs; the solution, called on the case's
    input, returns [42].  Then both trimmed strings are ["42"] and
    [run_test] returns [true]: the case is Passed. *)
Theorem roundtrip_42_passes (case_name bytes ws out : string)
    (Hopen : ifstream fs (in_file case_name) = Some bytes)
    (Hout : ifstream fs (out_file case_name) = Some ("42" ++ ws))
    (Hws : StdString.all_in WHITESPACE ws = true)
    (Hsize : StdString.size ("42" ++ ws) < SizeT.npos)
    (Hsol : solution (fst (read_input indeterminate bytes))
              (snd (read_input indeterminate bytes)) = Return 42) :
  trim_trailing (to_string 42) = Some "42" /\
  trim_trailing ("42" ++ ws) = Some "42" /\
  run_test' case_name out = (Return true, out) /\
  Passed (run_test' case_name "").
Proof.
  assert (Hexp : trim_trailing ("42" ++ ws) = Some "42").
  { apply trim_trailing_append; [assumption | assumption | reflexivity]. }
  assert (Hrun : forall o, run_test' case_name o = (Return true, o)).
  { intros o. rewrite (run_test_opened case_name bytes o Hopen). unfold try_catch.
    destruct (read_input indeterminate bytes) as [input_str input_int].
    destruct (judge_returned _ input_str input_int _ 42 o Hout Hsol)
      as (a & e & Ha & He & Hj).
    rewrite Hexp in He. injection He as <-.
    change (trim_trailing (to_string 42)) with (Some "42") in Ha.
    injection Ha as <-. now rewrite Hj. }
  split; [reflexivity|]. split; [assumption|]. split; [apply Hrun|].
  unfold Passed. now rewrite Hrun.
Qed.

End Runner.

(** ** The reporter *)

Lemma wrap_in_range (z : Z) : Int.INT_MIN <= z <= Int.INT_MAX -> Int.wrap z = z.
Proof.
  unfold Int.INT_MIN, Int.INT_MAX, Int.wrap.
  change (2 ^ 31) with 2147483648. change (2 ^ 32) with 4294967296.
  intros H. rewrite Z.mod_small; lia.
Qed.

Lemma filter_length_lt {A} (f : A -> bool) (l : list A) (x : A) :
  In x l -> f x = false -> (List.length (filter f l) < List.length l)%nat.
Proof.
  induction l as [|y l IH]; [contradiction|].
  intros [->|Hin] Hx; simpl.
  - rewrite Hx. pose proof (filter_length_le f l). lia.
  - specialize (IH Hin Hx). destruct (f y); simpl; lia.
Qed.

Section Reporter.
Import StringFacts.
Variable fs : filesystem.
Variable solution : string -> Z -> completion Z.
Variable indeterminate : Z.

Local Abbreviation run_test' := (run_test fs solution indeterminate).
Local Abbreviation run_all' := (run_all fs solution indeterminate).
Local Abbreviation main' := (main fs solution indeterminate).
Local Abbreviation passes' := (passes fs solution indeterminate).
Local Abbreviation count_passed' := (count_passed fs solution indeterminate).
Local Abbreviation report' := (report fs solution indeterminate).
Local Abbreviation in_file case_name := (Path.append TESTS_DIR (case_name ++ ".in")).
Local Abbreviation out_file case_name := (Path.append TESTS_DIR (case_name ++ ".out")).

Lemma main_unfold (out : string) :
  main' out
  = report' (discovered fs) (out ++ written (find_test_cases fs TESTS_DIR)).
Proof.
  unfold main. change (when FULL_LOGGING _) with (ret tt).
  unfold bind at 1. cbn [ret]. unfold bind at 1.
  rewrite find_test_cases_run. now destruct (discovered fs).
Qed.

Lemma written_discovery_found (entries : list dir_entry) :
  written (find_test_cases (Some entries) TESTS_DIR) = "".
Proof. reflexivity. Qed.

Lemma run_all_step (test_case : string) (rest : list string) (passed_count : Z)
    (out : string) (b : bool) :
  fst (run_test' test_case "") = Return b ->
  run_all' (test_case :: rest) passed_count out
  = run_all' rest (if b then Int.wrap (passed_count + 1) else passed_count)
      (out ++ written (run_test' test_case)).
Proof.
  intros H. cbn [run_all]. unfold bind at 1.
  rewrite (framed_run_test fs solution indeterminate test_case out), H.
  reflexivity.
Qed.

Lemma passes_returned (test_case : string) (b : bool) :
  fst (run_test' test_case "") = Return b -> passes' test_case = b.
Proof. unfold passes. intros ->. now destruct b. Qed.

(** The loop counts the cases that pass, as long as an [int] can hold the
    count. *)
Lemma run_all_count (test_cases : list string) :
  (forall c, In c test_cases -> exists b, fst (run_test' c "") = Return b) ->
  forall passed_count out,
    0 <= passed_count ->
    passed_count + Z.of_nat (List.length test_cases) <= Int.INT_MAX ->
    exists w,
      run_all' test_cases passed_count out
      = (Return (passed_count + Z.of_nat (count_passed' test_cases)), out ++ w).
Proof.
  unfold count_passed.
  induction test_cases as [|c rest IH]; intros Hret p out Hp Hmax.
  - exists "". cbn. now rewrite Z.add_0_r, append_nil_r.
  - destruct (Hret c (or_introl eq_refl)) as [b Hb].
    rewrite (run_all_step c rest p out b Hb).
    cbn [List.length filter] in *. rewrite (passes_returned c b Hb).
    assert (Hrest : forall c', In c' rest -> exists b', fst (run_test' c' "") = Return b')
      by (intros c' Hc'; apply Hret; now right).
    assert (Hmin : Int.INT_MIN <= 0) by (unfold Int.INT_MIN; lia).
    destruct b.
    + rewrite wrap_in_range by lia.
      destruct (IH Hrest (p + 1) (out ++ written (run_test' c)) ltac:(lia) ltac:(lia))
        as [w Hw].
      exists (written (run_test' c) ++ w). rewrite Hw, append_assoc.
      cbn [List.length]. do 2 f_equal. lia.
    + destruct (IH Hrest p (out ++ written (run_test' c)) Hp ltac:(lia)) as [w Hw].
      exists (written (run_test' c) ++ w). now rewrite Hw, append_assoc.
Qed.


Lemma report_cons (c : string) (rest : list string) :
  report' (c :: rest)
  = (passed_count <- run_all' (c :: rest) 0 ;;
     let total_count := Int.wrap (Z.of_nat (List.length (c :: rest))) in
     let summary_color := if passed_count =? total_count then "green" else "red" in
     print_colored
       ("Passed " ++ to_string passed_count ++ " out of "
          ++ to_string total_count ++ " tests.") summary_color ;;
     print endl ;;
     ret (if passed_count =? total_count then 0 else 1)).
Proof. reflexivity. Qed.

(** The end of [main]: the summary line and the exit status. *)
Lemma report_run (test_cases : list string) (out : string) :
  (forall s n, solution s n <> Throw other_object) ->
  Z.of_nat (List.length test_cases) <= Int.INT_MAX ->
  exists console,
    report' test_cases out
    = (Return (if Nat.eqb (count_passed' test_cases) (List.length test_cases)
               then 0 else 1), console).
Proof.
  intros Hsol Hmax. destruct test_cases as [|c rest].
  - eexists. reflexivity.
  - rewrite report_cons. set (test_cases := c :: rest) in *.
    assert (Hret : forall c, In c test_cases -> exists b, fst (run_test' c "") = Return b).
    { intros c' _. apply (returns_run_test fs solution indeterminate c' Hsol ""). }
    destruct (run_all_count test_cases Hret 0 out ltac:(lia) ltac:(lia)) as [w Hw].
    assert (Hmin : Int.INT_MIN <= 0) by (unfold Int.INT_MIN; lia).
    unfold bind at 1. rewrite Hw. cbn zeta.
    rewrite wrap_in_range by lia. rewrite Z.add_0_l.
    assert (Hcode : (Z.of_nat (count_passed' test_cases)
                     =? Z.of_nat (List.length test_cases))
                    = Nat.eqb (count_passed' test_cases) (List.length test_cases)).
    { destruct (Nat.eqb_spec (count_passed' test_cases) (List.length test_cases)) as [Q|Q].
      - rewrite Q. apply Z.eqb_refl.
      - apply Z.eqb_neq. lia. }
    rewrite Hcode. unfold bind at 1. rewrite print_colored_run.
    unfold bind at 1. cbn [print ret]. eexists. reflexivity.
Qed.

Lemma run_process_report :
  run_process fs solution indeterminate
  = match report' (discovered fs) (written (find_test_cases fs TESTS_DIR)) with
    | (Return status, console) => Exited status console
    | (Throw _, console) => Aborted console
    end.
Proof. unfold run_process. now rewrite main_unfold. Qed.

(** C1, as the code has it.  The solution throws nothing but
    [std::exception]s and the number of discovered cases fits an [int].
    Then the process exits, with status
    [0] if and only if the number of cases for which [run_test] returned
    [true] equals the number of discovered cases, and with status [1]
    otherwise; so it is [1] when fewer cases passed than were discovered, as
    when one of them was Skipped. *)
Theorem exit_status_iff_all_passed
    (Hsol : forall s n, solution s n <> Throw other_object)
    (Hmax : Z.of_nat (List.length (discovered fs)) <= Int.INT_MAX) :
  exists status console,
    run_process fs solution indeterminate = Exited status console /\
    (status = 0 <->
     count_passed' (discovered fs) = List.length (discovered fs)) /\
    (status = 0 \/ status = 1) /\
    ((count_passed' (discovered fs) < List.length (discovered fs))%nat ->
     status = 1) /\
    (forall c, In c (discovered fs) -> Skipped (run_test' c "") -> status = 1).
Proof.
  destruct (report_run (discovered fs) (written (find_test_cases fs TESTS_DIR))
              Hsol Hmax) as [console Hrep].
  eexists. exists console. split; [rewrite run_process_report, Hrep; reflexivity|].
  assert (Hlt : (count_passed' (discovered fs) < List.length (discovered fs))%nat ->
                (if Nat.eqb (count_passed' (discovered fs))
                      (List.length (discovered fs)) then 0 else 1) = 1).
  { intros L. destruct (Nat.eqb_spec (count_passed' (discovered fs))
                          (List.length (discovered fs))); [lia | reflexivity]. }
  destruct (Nat.eqb_spec (count_passed' (discovered fs))
              (List.length (discovered fs))) as [Q|Q].
  - repeat split; auto; try lia.
    intros c Hin Hskip. exfalso.
    assert (Hfalse : passes' c = false).
    { unfold passes. destruct Hskip as [Hs|Hs]; red in Hs; now rewrite Hs. }
    pose proof (filter_length_lt passes' (discovered fs) c Hin Hfalse) as L.
    unfold count_passed in Q. lia.
  - repeat split; auto; try congruence; discriminate.
Qed.

(** C9.  No case is discovered, as when [TESTS_DIR] is missing or is not a
    directory.  Then the process exits with status [0], and the last thing on
    the console is the notice that no test cases were found; before it
    stands the discovery error when the directory is missing, and nothing
    otherwise. *)
Theorem no_cases_exit_zero (Hnone : fs = None \/ discovered fs = []) :
  run_process fs solution indeterminate
  = Exited 0 (written (find_test_cases fs TESTS_DIR) ++ NO_CASES_NOTICE) /\
  discovered fs = [] /\
  (fs = None ->
   written (find_test_cases fs TESTS_DIR)
   = written (print_colored "❌ Error: Test directory 'tests/' not found." "red")
       ++ endl) /\
  (fs <> None -> written (find_test_cases fs TESTS_DIR) = "").
Proof.
  assert (Hd : discovered fs = []) by (destruct Hnone as [->|H]; [reflexivity | exact H]).
  split; [|split; [exact Hd|split]].
  - rewrite run_process_report, Hd. unfold report.
    unfold bind, print, ret, NO_CASES_NOTICE, TESTS_DIR.
    now rewrite !append_assoc.
  - now intros ->.
  - destruct fs; [reflexivity | congruence].
Qed.

(** C6.  The expected-output file of a case does not exist.  Then
    [run_test] returns [false] after one of the two Skipped notices (the
    missing-output one when the input file opens): the case is Skipped, not
    Failed and not Passed.  The loop of [main] goes on with an unchanged
    count, and when the case is the only one discovered the process writes
    "Passed 0 out of 1 tests." and exits with status [1]. *)
Theorem missing_output_is_skipped (case_name out : string)
    (Hmissing : exists_ fs (out_file case_name) = false) :
  exists notice,
    (notice = skipped_notice SKIPPED_INPUT \/ notice = skipped_notice SKIPPED_OUTPUT) /\
    (ifstream fs (in_file case_name) <> None ->
     notice = skipped_notice SKIPPED_OUTPUT) /\
    run_test' case_name out = (Return false, out ++ notice) /\
    Skipped (run_test' case_name "") /\
    ~ Failed (run_test' case_name "") /\
    ~ Passed (run_test' case_name "") /\
    (forall rest passed_count,
       run_all' (case_name :: rest) passed_count out
       = run_all' rest passed_count (out ++ notice)) /\
    (discovered fs = [case_name] ->
     run_process fs solution indeterminate
     = Exited 1
         (notice ++ written (print_colored "Passed 0 out of 1 tests." "red") ++ endl)).
Proof.
  assert (Hrun : exists notice,
             (notice = skipped_notice SKIPPED_INPUT \/
              notice = skipped_notice SKIPPED_OUTPUT) /\
             (ifstream fs (in_file case_name) <> None ->
              notice = skipped_notice SKIPPED_OUTPUT) /\
             forall o, run_test' case_name o = (Return false, o ++ notice)).
  { destruct (ifstream fs (in_file case_name)) as [bytes|] eqn:Hin.
    - exists (skipped_notice SKIPPED_OUTPUT). split; [now right|]. split; [reflexivity|].
      intros o. rewrite (run_test_opened fs solution indeterminate _ _ o Hin).
      unfold try_catch. now rewrite judge_missing_output.
    - exists (skipped_notice SKIPPED_INPUT). split; [now left|]. split; [congruence|].
      intros o. now apply run_test_missing_input. }
  destruct Hrun as (notice & Hnotice & Hopen & Hrun).
  exists notice. split; [exact Hnotice|]. split; [exact Hopen|]. split; [apply Hrun|].
  assert (Hempty : run_test' case_name "" = (Return false, notice))
    by (rewrite Hrun; reflexivity).
  split; [|split; [|split; [|split]]].
  - unfold Skipped, Skipped_missing_input, Skipped_missing_output.
    rewrite Hempty. destruct Hnotice as [->| ->]; auto.
  - rewrite Hempty. intros [H|[what H]]; red in H; injection H as H;
      destruct Hnotice as [->| ->]; vm_compute in H; discriminate.
  - unfold Passed. rewrite Hempty. discriminate.
  - intros rest passed_count. cbn [run_all]. unfold bind at 1. now rewrite Hrun.
  - intros Hd. rewrite run_process_report, Hd.
    assert (Hfs : written (find_test_cases fs TESTS_DIR) = "").
    { destruct fs; [reflexivity | discriminate Hd]. }
    rewrite Hfs, report_cons. cbn [run_all]. unfold bind at 1. unfold bind at 1.
    rewrite Hrun. cbn [ret]. cbn -[print_colored append].
    unfold bind at 1. rewrite print_colored_run.
    change ("" ++ notice) with notice. unfold bind, print, ret.
    rewrite append_assoc. reflexivity.
Qed.

End Reporter.

(** ** Canonical names *)

Lemma split_last_dot_append (name before ext : string) :
  Path.split_last_dot name = Some (before, ext) -> name = before ++ ext.
Proof.
  revert before. induction name as [|c name IH]; intros before H; [discriminate|].
  cbn [Path.split_last_dot] in H.
  destruct (Path.split_last_dot name) as [[b e]|].
  - injection H as <- <-. cbn. f_equal. now apply IH.
  - destruct (Ascii.eqb c "."); [|discriminate]. now injection H as <- <-.
Qed.

(** A file name is its stem followed by its extension. *)
Lemma path_stem_extension (name : string) :
  name = Path.stem name ++ Path.extension name.
Proof.
  unfold Path.stem, Path.extension, Path.split.
  destruct ((name =? ".") || (name =? ".."))%string%bool;
    [cbn; now rewrite StringFacts.append_nil_r|].
  destruct (Path.split_last_dot name) as [[before ext]|] eqn:E;
    [|cbn; now rewrite StringFacts.append_nil_r].
  destruct before; cbn; [now rewrite StringFacts.append_nil_r|].
  now apply split_last_dot_append in E.
Qed.

(** C10, as the code has it.  A regular [.in] file whose stem [std::stoi]
    reads as [n], without that stem being the decimal form of [n], is
    discovered under the name that is the decimal form of [n]: a name that
    is not the file's.  For that name [run_test] resolves
    [TESTS_DIR / (to_string n ++ ".in")] and
    [TESTS_DIR / (to_string n ++ ".out")]; when the first cannot be opened
    the case is Skipped for a missing input, and when it can be opened the
    case runs on the bytes found there. *)
Theorem noncanonical_stem_runs_canonical_name
    (fs : filesystem) (solution : string -> Z -> completion Z) (indeterminate : Z)
    (entry : dir_entry) (n : Z) (out : string)
    (Hin : In entry (entries_of fs))
    (Hreg : is_regular_file entry = true)
    (Hext : Path.extension (filename entry) = ".in")
    (Hparse : stoi (Path.stem (filename entry)) = Parsed n)
    (Hspelling : to_string n <> Path.stem (filename entry)) :
  In (to_string n) (discovered fs) /\
  to_string n ++ ".in" <> filename entry /\
  (ifstream fs (Path.append TESTS_DIR (to_string n ++ ".in")) = None ->
   run_test fs solution indeterminate (to_string n) out
   = (Return false, out ++ skipped_notice SKIPPED_INPUT)) /\
  (forall bytes,
     ifstream fs (Path.append TESTS_DIR (to_string n ++ ".in")) = Some bytes ->
     run_test fs solution indeterminate (to_string n) out
     = try_catch
         (judge fs solution (Path.append TESTS_DIR (to_string n ++ ".out"))
            (read_input indeterminate bytes))
         report_exception out).
Proof.
  split; [|split; [|split]].
  - apply discovered_In. exists entry, n. auto.
  - rewrite (path_stem_extension (filename entry)), Hext.
    intros H. apply StringFacts.append_inv_tail in H. contradiction.
  - apply run_test_missing_input.
  - intros bytes. apply run_test_opened.
Qed.

(** ** The claims at concrete fixtures *)

Lemma exit_status_iff_all_passed_witness :
  (forall s n, doubling s n <> Throw other_object) /\
  Z.of_nat (List.length (discovered scenario_A)) <= Int.INT_MAX /\
  exists status console,
    run_process scenario_A doubling 0 = Exited status console /\
    (status = 0 <->
     count_passed scenario_A doubling 0 (discovered scenario_A)
     = List.length (discovered scenario_A)) /\
    (status = 0 \/ status = 1) /\
    ((count_passed scenario_A doubling 0 (discovered scenario_A)
      < List.length (discovered scenario_A))%nat -> status = 1) /\
    (forall c, In c (discovered scenario_A) ->
               Skipped (run_test scenario_A doubling 0 c "") -> status = 1).
Proof.
  assert (H1 : forall s n, doubling s n <> Throw other_object)
    by (intros s n; discriminate).
  assert (H2 : Z.of_nat (List.length (discovered scenario_A)) <= Int.INT_MAX)
    by (vm_compute; discriminate).
  split; [exact H1|]. split; [exact H2|].
  exact (exit_status_iff_all_passed scenario_A doubling 0 H1 H2).
Defined.

(** C1 fails as stated, for every run: when the solution throws an object
    that is no [std::exception], one case is discovered and none passes, yet
    [main] returns no status at all, neither [1] nor any other; the process
    is aborted. *)
Lemma aborted_run_counterexample :
  discovered scenario_C = ["3"] /\
  count_passed scenario_C throwing_int 0 (discovered scenario_C) = 0%nat /\
  List.length (discovered scenario_C) = 1%nat /\
  run_process scenario_C throwing_int 0 = Aborted "" /\
  (forall status console,
     run_process scenario_C throwing_int 0 <> Exited status console).
Proof.
  assert (H : run_process scenario_C throwing_int 0 = Aborted "") by reflexivity.
  do 3 (split; [reflexivity|]). split; [exact H|].
  intros status console. rewrite H. discriminate.
Qed.

(** Scenario A runs to "Passed 1 out of 1 tests." and status [0]. *)
Example scenario_A_passes :
  run_process scenario_A doubling 0
  = Exited 0 (written (print_colored "Passed 1 out of 1 tests." "green") ++ endl).
Proof. reflexivity. Qed.

(** On canonical fixtures each input file is its own case. *)
Example scenario_A_discovered : discovered scenario_A = ["1"].
Proof. reflexivity. Qed.

(** A first line and nothing after it: [>>] stores nothing, and [input_int]
    is whatever the uninitialised variable held. *)
Example absent_token_is_indeterminate (indeterminate : Z) :
  read_input indeterminate ("hello" ++ endl) = ("hello", indeterminate) /\
  read_input indeterminate "hello" = ("hello", indeterminate) /\
  read_input indeterminate "" = ("", indeterminate).
Proof. repeat split. Qed.

(** A number outside [int] is stored as the nearest bound. *)
Example out_of_range_token_is_clamped :
  read_input 0 ("hello" ++ endl ++ "99999999999") = ("hello", Int.INT_MAX).
Proof. reflexivity. Qed.



(** C5 fails as stated: an object that is no [std::exception] is not
    caught; it leaves [run_test] and [main], no summary is written and the
    process is aborted. *)
Lemma foreign_exception_counterexample :
  run_test scenario_C throwing_int 0 "3" "" = (Throw other_object, "") /\
  Escaped (run_test scenario_C throwing_int 0 "3" "") /\
  ~ Failed (run_test scenario_C throwing_int 0 "3" "") /\
  run_process scenario_C throwing_int 0 = Aborted "".
Proof.
  assert (H : run_test scenario_C throwing_int 0 "3" "" = (Throw other_object, ""))
    by reflexivity.
  split; [exact H|]. split; [exists other_object; now rewrite H|].
  split; [|reflexivity].
  rewrite H. intros [F|[what F]]; discriminate F.
Qed.

(** Scenario C with a [std::exception]: the case is Failed, the run goes on
    to the summary and exits with status [1]. *)
Example scenario_C_exit :
  run_process scenario_C throwing_runtime_error 0
  = Exited 1
      (failure_report "boom"
         ++ written (print_colored "Passed 0 out of 1 tests." "red") ++ endl).
Proof. reflexivity. Qed.

Lemma std_exception_is_failed_witness :
  ifstream scenario_C (Path.append TESTS_DIR ("3" ++ ".in"))
  = Some ("hello" ++ endl ++ "5" ++ endl) /\
  ifstream scenario_C (Path.append TESTS_DIR ("3" ++ ".out")) = Some ("10" ++ endl) /\
  throwing_runtime_error (fst (read_input 0 ("hello" ++ endl ++ "5" ++ endl)))
    (snd (read_input 0 ("hello" ++ endl ++ "5" ++ endl)))
  = Throw (std_exception "boom") /\
  run_test scenario_C throwing_runtime_error 0 "3" ""
  = (Return false, "" ++ failure_report "boom").
Proof.
  do 3 (split; [reflexivity|]).
  exact (proj1 (std_exception_is_failed scenario_C throwing_runtime_error 0
                  "3" _ _ "boom" "" eq_refl eq_refl eq_refl)).
Defined.

Lemma missing_output_is_skipped_witness :
  exists_ scenario_B (Path.append TESTS_DIR ("2" ++ ".out")) = false /\
  exists notice,
    (notice = skipped_notice SKIPPED_INPUT \/ notice = skipped_notice SKIPPED_OUTPUT) /\
    (ifstream scenario_B (Path.append TESTS_DIR ("2" ++ ".in")) <> None ->
     notice = skipped_notice SKIPPED_OUTPUT) /\
    run_test scenario_B doubling 0 "2" "" = (Return false, "" ++ notice) /\
    Skipped (run_test scenario_B doubling 0 "2" "") /\
    ~ Failed (run_test scenario_B doubling 0 "2" "") /\
    ~ Passed (run_test scenario_B doubling 0 "2" "") /\
    (forall rest passed_count,
       run_all scenario_B doubling 0 ("2" :: rest) passed_count ""
       = run_all scenario_B doubling 0 rest passed_count ("" ++ notice)) /\
    (discovered scenario_B = ["2"] ->
     run_process scenario_B doubling 0
     = Exited 1
         (notice ++ written (print_colored "Passed 0 out of 1 tests." "red") ++ endl)).
Proof.
  split; [reflexivity|].
  exact (missing_output_is_skipped scenario_B doubling 0 "2" "" eq_refl).
Defined.

(** Scenario B as a whole: one case, none passed, status [1]. *)
Example scenario_B_exit :
  discovered scenario_B = ["2"] /\
  run_process scenario_B doubling 0
  = Exited 1
      (skipped_notice SKIPPED_OUTPUT
         ++ written (print_colored "Passed 0 out of 1 tests." "red") ++ endl).
Proof. split; reflexivity. Qed.

Lemma roundtrip_42_passes_witness :
  ifstream fixture_42 (Path.append TESTS_DIR ("9" ++ ".in"))
  = Some ("life" ++ endl ++ "6" ++ endl) /\
  ifstream fixture_42 (Path.append TESTS_DIR ("9" ++ ".out"))
  = Some ("42" ++ (endl ++ String CR endl)) /\
  StdString.all_in WHITESPACE (endl ++ String CR endl) = true /\
  StdString.size ("42" ++ (endl ++ String CR endl)) < SizeT.npos /\
  answer_42 (fst (read_input 0 ("life" ++ endl ++ "6" ++ endl)))
    (snd (read_input 0 ("life" ++ endl ++ "6" ++ endl))) = Return 42 /\
  trim_trailing (to_string 42) = Some "42" /\
  trim_trailing ("42" ++ (endl ++ String CR endl)) = Some "42" /\
  run_test fixture_42 answer_42 0 "9" "" = (Return true, "") /\
  Passed (run_test fixture_42 answer_42 0 "9" "").
Proof.
  do 5 (split; [reflexivity|]).
  exact (roundtrip_42_passes fixture_42 answer_42 0 "9" _ (endl ++ String CR endl) ""
           eq_refl eq_refl eq_refl eq_refl eq_refl).
Defined.

Lemma no_cases_exit_zero_witness :
  (@None (list dir_entry) = None \/ discovered None = []) /\
  (run_process None doubling 0
   = Exited 0 (written (find_test_cases None TESTS_DIR) ++ NO_CASES_NOTICE) /\
   discovered None = [] /\
   (@None (list dir_entry) = None ->
    written (find_test_cases None TESTS_DIR)
    = written (print_colored "❌ Error: Test directory 'tests/' not found." "red")
        ++ endl) /\
   (@None (list dir_entry) <> None -> written (find_test_cases None TESTS_DIR) = "")) /\
  (Some [file "notes.txt" ""] = None \/ discovered (Some [file "notes.txt" ""]) = []) /\
  run_process (Some [file "notes.txt" ""]) doubling 0 = Exited 0 NO_CASES_NOTICE.
Proof.
  split; [now left|].
  split; [exact (no_cases_exit_zero None doubling 0 (or_introl eq_refl))|].
  split; [now right|].
  exact (proj1 (no_cases_exit_zero (Some [file "notes.txt" ""]) doubling 0
                  (or_intror eq_refl))).
Defined.

(** C10 fails as stated: beside [7.in] the fixture [007.in] is no Skipped
    case; its name ["7"] is discovered a second time and runs on [7.in]. *)
Lemma canonical_file_present_counterexample :
  In (file "007.in" ("hello" ++ endl ++ "5" ++ endl))
    (entries_of padded_and_canonical_fixture) /\
  stoi (Path.stem "007.in") = Parsed 7 /\
  to_string 7 <> Path.stem "007.in" /\
  discovered padded_and_canonical_fixture = ["7"; "7"] /\
  run_test padded_and_canonical_fixture doubling 0 (to_string 7) ""
  = (Return true, "") /\
  ~ Skipped (run_test padded_and_canonical_fixture doubling 0 (to_string 7) "").
Proof.
  assert (H : run_test padded_and_canonical_fixture doubling 0 (to_string 7) ""
              = (Return true, "")) by reflexivity.
  split; [now left|]. split; [reflexivity|]. split; [discriminate|].
  split; [reflexivity|]. split; [exact H|].
  rewrite H. intros [F|F]; discriminate F.
Qed.

Lemma noncanonical_stem_runs_canonical_name_witness :
  In (file "007.in" ("hello" ++ endl ++ "5" ++ endl)) (entries_of padded_fixture) /\
  stoi (Path.stem "007.in") = Parsed 7 /\
  to_string 7 <> Path.stem "007.in" /\
  In (to_string 7) (discovered padded_fixture) /\
  to_string 7 ++ ".in" <> "007.in" /\
  (ifstream padded_fixture (Path.append TESTS_DIR (to_string 7 ++ ".in")) = None ->
   run_test padded_fixture doubling 0 (to_string 7) ""
   = (Return false, "" ++ skipped_notice SKIPPED_INPUT)) /\
  (forall bytes,
     ifstream padded_fixture (Path.append TESTS_DIR (to_string 7 ++ ".in")) = Some bytes ->
     run_test padded_fixture doubling 0 (to_string 7) ""
     = try_catch
         (judge padded_fixture doubling (Path.append TESTS_DIR (to_string 7 ++ ".out"))
            (read_input 0 bytes))
         report_exception "").
Proof.
  assert (H1 : In (file "007.in" ("hello" ++ endl ++ "5" ++ endl))
                 (entries_of padded_fixture)) by (now left).
  assert (H2 : stoi (Path.stem "007.in") = Parsed 7) by reflexivity.
  assert (H3 : to_string 7 <> Path.stem "007.in") by discriminate.
  repeat (split; [assumption|]).
  exact (noncanonical_stem_runs_canonical_name padded_fixture doubling 0
           (file "007.in" ("hello" ++ endl ++ "5" ++ endl)) 7 ""
           H1 eq_refl eq_refl H2 H3).
Defined.

(** The padded fixture alone: discovered as ["7"], Skipped for a missing
    input. *)
Example padded_fixture_skipped :
  discovered padded_fixture = ["7"] /\
  Skipped_missing_input (run_test padded_fixture doubling 0 "7" "").
Proof. split; reflexivity. Qed.

(** * Further properties of the harness *)

(** ** Numbers in file names and fixtures *)

Section Numbers.
Import StringFacts.

Lemma digits_stop (rest : string) (acc : Z) :
  starts_with_digit rest = false -> digits rest acc = (acc, rest).
Proof. destruct rest as [|c rest]; simpl; [reflexivity | now intros ->]. Qed.

Lemma digits_of_uint_acc_rest (d : Decimal.uint) (acc : positive) (rest : string) :
  starts_with_digit rest = false ->
  digits (NilEmpty.string_of_uint d ++ rest) (Zpos acc)
  = (Zpos (Pos.of_uint_acc d acc), rest).
Proof.
  intros Hrest. revert acc.
  induction d as [|d IH|d IH|d IH|d IH|d IH|d IH|d IH|d IH|d IH|d IH];
    intros acc; [now apply digits_stop|..];
    cbn [NilEmpty.string_of_uint Pos.of_uint_acc digits append];
    match goal with
    | |- context [isdigit ?c] => change (isdigit c) with true; cbn iota
    end;
    rewrite <- IH; f_equal;
    match goal with
    | |- context [digit_value ?c] =>
        let v := eval vm_compute in (digit_value c) in
        change (digit_value c) with v
    end; lia.
Qed.

Lemma digits_of_uint_rest (d : Decimal.uint) (rest : string) :
  starts_with_digit rest = false ->
  digits (NilEmpty.string_of_uint d ++ rest) 0 = (Z.of_N (Pos.of_uint d), rest).
Proof.
  intros Hrest.
  induction d as [|d IH|d IH|d IH|d IH|d IH|d IH|d IH|d IH|d IH|d IH];
    [now apply digits_stop | exact IH |..];
    cbn [NilEmpty.string_of_uint Pos.of_uint digits append];
    match goal with
    | |- context [isdigit ?c] => change (isdigit c) with true; cbn iota
    end;
    cbn [Z.of_N]; rewrite <- (digits_of_uint_acc_rest _ _ rest Hrest); reflexivity.
Qed.

Lemma signed_number_uint_rest (d : Decimal.uint) (rest : string) :
  d <> Decimal.Nil ->
  signed_number (NilEmpty.string_of_uint d ++ rest)
  = Some (digits (NilEmpty.string_of_uint d ++ rest) 0).
Proof.
  intros Hd.
  assert (H : forall s, (let '(v, r) := digits s 0 in Some (v, r)) = Some (digits s 0))
    by (intros s; now destruct (digits s 0)).
  destruct d; [congruence|..]; (etransitivity; [|apply H]); reflexivity.
Qed.

Lemma signed_number_minus_uint_rest (d : Decimal.uint) (rest : string) :
  d <> Decimal.Nil ->
  signed_number (String "-" (NilEmpty.string_of_uint d ++ rest))
  = Some (- fst (digits (NilEmpty.string_of_uint d ++ rest) 0),
          snd (digits (NilEmpty.string_of_uint d ++ rest) 0)).
Proof.
  intros Hd.
  assert (H : forall s, (let '(v, r) := digits s 0 in Some (- v, r))
                        = Some (- fst (digits s 0), snd (digits s 0)))
    by (intros s; now destruct (digits s 0)).
  destruct d; [congruence|..]; (etransitivity; [|apply H]); reflexivity.
Qed.

(** The decimal form of a number starts with a digit or a minus sign. *)
Lemma to_string_head (n : Z) :
  exists c s, to_string n = String c s /\ isspace c = false /\ Ascii.eqb c "/" = false.
Proof.
  unfold to_string. destruct n as [|p|p]; cbn [Z.to_int NilEmpty.string_of_int].
  - now exists "0"%char, "".
  - pose proof (DecimalPos.Unsigned.to_uint_nonnil p) as Hd.
    destruct (Pos.to_uint p); [congruence|..]; cbn; eexists _, _; repeat split.
  - eexists _, _. repeat split.
Qed.

(** What follows the sign and the digits is left unread. *)
Lemma signed_number_to_string (n : Z) (rest : string) :
  starts_with_digit rest = false ->
  signed_number (to_string n ++ rest) = Some (n, rest).
Proof.
  intros Hrest. unfold to_string.
  destruct n as [|p|p]; cbn [Z.to_int NilEmpty.string_of_int].
  - change Decimal.zero with (Decimal.D0 Decimal.Nil).
    rewrite signed_number_uint_rest by discriminate.
    now rewrite digits_of_uint_rest.
  - rewrite signed_number_uint_rest by apply DecimalPos.Unsigned.to_uint_nonnil.
    now rewrite digits_of_uint_rest, DecimalPos.Unsigned.of_to.
  - cbn [append].
    rewrite signed_number_minus_uint_rest by apply DecimalPos.Unsigned.to_uint_nonnil.
    now rewrite digits_of_uint_rest, DecimalPos.Unsigned.of_to.
Qed.

Lemma skip_space_to_string (n : Z) (rest : string) :
  skip_space (to_string n ++ rest) = to_string n ++ rest.
Proof.
  destruct (to_string_head n) as (c & s & -> & Hc & _). cbn. now rewrite Hc.
Qed.

Lemma skip_space_append (ws s : string) :
  all_isspace ws = true -> skip_space (ws ++ s) = skip_space s.
Proof.
  induction ws as [|c ws IH]; [reflexivity|].
  cbn. intros H. apply andb_prop in H as [-> Hws]. now apply IH.
Qed.

(** [std::stoi] on white space, a decimal form and anything that does not
    go on with a digit. *)
Lemma stoi_decimal_prefix (ws : string) (n : Z) (rest : string) :
  all_isspace ws = true ->
  starts_with_digit rest = false ->
  stoi (ws ++ to_string n ++ rest)
  = if Int.in_range n then Parsed n else out_of_range.
Proof.
  intros Hws Hrest. unfold stoi.
  rewrite skip_space_append, skip_space_to_string by assumption.
  now rewrite signed_number_to_string.
Qed.

End Numbers.

(** ** File names *)

Section FileNames.
Import StringFacts.

Lemma split_last_dot_in (stem : string) :
  Path.split_last_dot (stem ++ ".in") = Some (stem, ".in").
Proof.
  induction stem as [|c stem IH]; [reflexivity|].
  cbn [append Path.split_last_dot]. now rewrite IH.
Qed.

(** A name made of a stem that is not empty and of [.in] splits into these
    two, whatever periods the stem holds. *)
Lemma path_split_in (stem : string) :
  stem <> "" -> Path.split (stem ++ ".in") = (stem, ".in").
Proof.
  intros Hstem. unfold Path.split.
  assert (Hlen : (3 < String.length (stem ++ ".in"))%nat).
  { rewrite length_append. destruct stem; [congruence | simpl; lia]. }
  assert (H1 : (stem ++ ".in" =? ".")%string = false).
  { apply String.eqb_neq. intros E. rewrite E in Hlen. simpl in Hlen. lia. }
  assert (H2 : (stem ++ ".in" =? "..")%string = false).
  { apply String.eqb_neq. intros E. rewrite E in Hlen. simpl in Hlen. lia. }
  rewrite H1, H2, split_last_dot_in. cbn [orb].
  destruct stem; [congruence | reflexivity].
Qed.

Lemma tests_dir_append (name : string) :
  Path.starts_with_slash name = false ->
  Path.append TESTS_DIR name = TESTS_DIR ++ name.
Proof. intros H. unfold Path.append. now rewrite H. Qed.

(** Two names that [TESTS_DIR / name] sends to one path are one name, when
    one of them is relative. *)
Lemma tests_dir_append_inj (name name' : string) :
  Path.starts_with_slash name = false ->
  Path.append TESTS_DIR name' = Path.append TESTS_DIR name -> name' = name.
Proof.
  intros H E. rewrite (tests_dir_append name H) in E.
  destruct (Path.starts_with_slash name') eqn:H'.
  - unfold Path.append in E. rewrite H' in E.
    destruct name' as [|c name']; [discriminate|].
    cbn in H'. apply Ascii.eqb_eq in H'. subst c. discriminate.
  - rewrite (tests_dir_append name' H') in E. now apply append_inv_head in E.
Qed.

Lemma to_string_relative (n : Z) (ext : string) :
  Path.starts_with_slash (to_string n ++ ext) = false.
Proof. destruct (to_string_head n) as (c & s & -> & _ & Hc). exact Hc. Qed.

Lemma to_string_nonempty (n : Z) (rest : string) : to_string n ++ rest <> "".
Proof. destruct (to_string_head n) as (c & s & -> & _). discriminate. Qed.

End FileNames.

(** ** Case discovery, further *)

Section DiscoveryFurther.
Import StringFacts.

Lemma accepted_numbers_app (l1 l2 : list dir_entry) :
  accepted_numbers (l1 ++ l2) = (accepted_numbers l1 ++ accepted_numbers l2)%list.
Proof. apply flat_map_app. Qed.

Lemma accepted_numbers_skip (l1 l2 : list dir_entry) (e : dir_entry) :
  accepted e = None ->
  accepted_numbers (l1 ++ e :: l2) = accepted_numbers (l1 ++ l2).
Proof.
  intros H. rewrite !accepted_numbers_app. f_equal.
  unfold accepted_numbers. cbn [flat_map]. now rewrite H.
Qed.

Lemma accepted_decimal_prefix (e : dir_entry) (ws rest : string) (n : Z) :
  is_regular_file e = true ->
  filename e = (ws ++ to_string n ++ rest) ++ ".in" ->
  all_isspace ws = true ->
  starts_with_digit rest = false ->
  accepted e = if Int.in_range n then Some n else None.
Proof.
  intros Hreg Hname Hws Hrest. unfold accepted, Path.extension, Path.stem.
  rewrite Hreg, Hname, path_split_in.
  - cbn [fst snd andb]. rewrite String.eqb_refl, stoi_decimal_prefix by assumption.
    now destruct (Int.in_range n).
  - destruct ws; cbn [append]; [apply to_string_nonempty | discriminate].
Qed.

End DiscoveryFurther.

(** X1.  An entry that is no regular file, or whose extension is not [.in],
    or on whose stem [std::stoi] throws, adds nothing to the discovery: the
    names discovered are those of the directory without it. *)
Theorem discovery_ignores_other_entries (before after : list dir_entry) (e : dir_entry)
    (Hother : is_regular_file e = false \/
              Path.extension (filename e) <> ".in" \/
              stoi (Path.stem (filename e)) = invalid_argument \/
              stoi (Path.stem (filename e)) = out_of_range) :
  discovered (Some (before ++ e :: after)%list) = discovered (Some (before ++ after)%list) /\
  find_test_cases (Some (before ++ e :: after)%list) TESTS_DIR ""
  = find_test_cases (Some (before ++ after)%list) TESTS_DIR "".
Proof.
  assert (Ha : accepted e = None).
  { unfold accepted. destruct Hother as [H|[H|[H|H]]].
    - now rewrite H.
    - apply String.eqb_neq in H. rewrite H. now rewrite andb_false_r.
    - rewrite H. now destruct (_ && _)%bool.
    - rewrite H. now destruct (_ && _)%bool. }
  assert (Hd : discovered (Some (before ++ e :: after)%list)
               = discovered (Some (before ++ after)%list)).
  { rewrite !discovered_eq. cbn [entries_of]. now rewrite accepted_numbers_skip. }
  split; [exact Hd|]. now rewrite !find_test_cases_run, Hd.
Qed.

Lemma discovery_ignores_other_entries_witness :
  (is_regular_file (file "notes.txt" "") = false \/
   Path.extension (filename (file "notes.txt" "")) <> ".in" \/
   stoi (Path.stem (filename (file "notes.txt" ""))) = invalid_argument \/
   stoi (Path.stem (filename (file "notes.txt" ""))) = out_of_range) /\
  discovered (Some ([file "1.in" ""] ++ file "notes.txt" "" :: [file "2.in" ""])%list)
  = discovered (Some ([file "1.in" ""] ++ [file "2.in" ""])%list).
Proof.
  assert (H : is_regular_file (file "notes.txt" "") = false \/
              Path.extension (filename (file "notes.txt" "")) <> ".in" \/
              stoi (Path.stem (filename (file "notes.txt" ""))) = invalid_argument \/
              stoi (Path.stem (filename (file "notes.txt" ""))) = out_of_range)
    by (right; left; discriminate).
  split; [exact H|].
  exact (proj1 (discovery_ignores_other_entries [file "1.in" ""] [file "2.in" ""]
                  (file "notes.txt" "") H)).
Defined.

(** X2.  The order in which [directory_iterator] visits the entries does not
    show in the discovery: two listings of the same entries give the same
    names in the same order. *)
Theorem discovery_order_independent (entries entries' : list dir_entry)
    (Hperm : Permutation entries entries') :
  discovered (Some entries) = discovered (Some entries').
Proof.
  rewrite !discovered_eq. cbn [entries_of]. f_equal.
  apply sorted_perm_eq; try apply std_sort_sorted.
  rewrite !std_sort_perm. unfold accepted_numbers.
  now apply Permutation_flat_map.
Qed.

Lemma discovery_order_independent_witness :
  Permutation [file "10.in" ""; file "9.in" ""; file "9.out" ""]
    [file "9.out" ""; file "9.in" ""; file "10.in" ""] /\
  discovered (Some [file "10.in" ""; file "9.in" ""; file "9.out" ""])
  = discovered (Some [file "9.out" ""; file "9.in" ""; file "10.in" ""]).
Proof.
  assert (H : Permutation [file "10.in" ""; file "9.in" ""; file "9.out" ""]
                [file "9.out" ""; file "9.in" ""; file "10.in" ""]).
  { apply (Permutation_rev [file "10.in" ""; file "9.in" ""; file "9.out" ""]). }
  split; [exact H|]. exact (discovery_order_independent _ _ H).
Defined.

(** X3.  A regular file whose name is white space, the decimal form of an
    [int] [n], anything that does not go on with a digit, and [.in], is
    discovered as the case named by the decimal form of [n]: so is every
    fixture [<n>.in], negative [n] included. *)
Theorem discovery_reads_decimal_prefix (fs : filesystem) (e : dir_entry)
    (ws rest : string) (n : Z)
    (Hin : In e (entries_of fs))
    (Hreg : is_regular_file e = true)
    (Hname : filename e = (ws ++ to_string n ++ rest) ++ ".in")
    (Hws : all_isspace ws = true)
    (Hrest : starts_with_digit rest = false)
    (Hrange : Int.in_range n = true) :
  stoi (Path.stem (filename e)) = Parsed n /\
  In (to_string n) (discovered fs).
Proof.
  pose proof (accepted_decimal_prefix e ws rest n Hreg Hname Hws Hrest) as Ha.
  rewrite Hrange in Ha. split.
  - now apply accepted_iff in Ha as (_ & _ & Hs).
  - apply discovered_In. exists e, n. apply accepted_iff in Ha as (? & ? & ?). auto.
Qed.

Lemma discovery_reads_decimal_prefix_witness :
  In (file " -12_old.in" "") (entries_of (Some [file "3.in" ""; file " -12_old.in" ""])) /\
  all_isspace " " = true /\
  starts_with_digit "_old" = false /\
  Int.in_range (-12) = true /\
  stoi (Path.stem (filename (file " -12_old.in" ""))) = Parsed (-12) /\
  In (to_string (-12)) (discovered (Some [file "3.in" ""; file " -12_old.in" ""])).
Proof.
  assert (H : In (file " -12_old.in" "")
                (entries_of (Some [file "3.in" ""; file " -12_old.in" ""])))
    by (right; now left).
  split; [exact H|]. do 3 (split; [reflexivity|]).
  exact (discovery_reads_decimal_prefix _ (file " -12_old.in" "") " " "_old" (-12)
           H eq_refl eq_refl eq_refl eq_refl eq_refl).
Defined.

(** X4.  A regular [.in] file whose stem writes a number outside [int] is
    left out of the discovery, without an error: [std::stoi] throws
    [std::out_of_range] and the [catch] swallows it. *)
Theorem out_of_range_stem_is_ignored (before after : list dir_entry) (e : dir_entry)
    (ws rest : string) (n : Z)
    (Hreg : is_regular_file e = true)
    (Hname : filename e = (ws ++ to_string n ++ rest) ++ ".in")
    (Hws : all_isspace ws = true)
    (Hrest : starts_with_digit rest = false)
    (Hrange : Int.in_range n = false) :
  stoi (Path.stem (filename e)) = out_of_range /\
  find_test_cases (Some (before ++ e :: after)%list) TESTS_DIR ""
  = find_test_cases (Some (before ++ after)%list) TESTS_DIR "".
Proof.
  pose proof (accepted_decimal_prefix e ws rest n Hreg Hname Hws Hrest) as Ha.
  rewrite Hrange in Ha. split.
  - unfold Path.stem. rewrite Hname, path_split_in.
    + cbn [fst]. rewrite stoi_decimal_prefix by assumption. now rewrite Hrange.
    + destruct ws; cbn [append]; [apply to_string_nonempty | discriminate].
  - rewrite !find_test_cases_run. f_equal. f_equal.
    rewrite !discovered_eq. cbn [entries_of]. now rewrite accepted_numbers_skip.
Qed.

Lemma out_of_range_stem_is_ignored_witness :
  Int.in_range 2147483648 = false /\
  stoi (Path.stem (filename (file "2147483648.in" ""))) = out_of_range /\
  find_test_cases (Some ([file "1.in" ""] ++ file "2147483648.in" "" :: [])%list)
    TESTS_DIR ""
  = find_test_cases (Some ([file "1.in" ""] ++ [])%list) TESTS_DIR "".
Proof.
  split; [reflexivity|].
  exact (out_of_range_stem_is_ignored [file "1.in" ""] [] (file "2147483648.in" "")
           "" "" 2147483648 eq_refl eq_refl eq_refl eq_refl eq_refl).
Defined.

(** ** Trimming and colours, further *)

Lemma take_is_prefix (n : nat) (s : string) : exists w, s = StdString.take n s ++ w.
Proof.
  revert s. induction n as [|n IH]; intros [|c s]; simpl; eauto.
  destruct (IH s) as [w Hw]. exists w. now rewrite <- Hw.
Qed.

(** X5.  [trim_trailing] never throws, however long the string: [erase] is
    called with a position inside the string, and what is left is a prefix
    of the argument. *)
Theorem trim_trailing_never_throws (s : string) :
  exists t w, trim_trailing s = Some t /\ s = t ++ w.
Proof.
  destruct (trim_trailing_total s) as [t Ht]. exists t.
  pose proof Ht as Hprefix. unfold trim_trailing, StdString.erase in Hprefix.
  destruct (StdString.size s <? _); [discriminate|]. injection Hprefix as <-.
  destruct (take_is_prefix
              (Z.to_nat (SizeT.add (StdString.find_last_not_of s WHITESPACE) 1)) s)
    as [w Hw].
  exists w. split; [exact Ht | exact Hw].
Qed.

(** X6.  A string made of nothing but spaces, newlines, carriage returns and
    tabs, the empty string among them, is trimmed to the empty string:
    [find_last_not_of] yields [npos] and [npos + 1] is [0]. *)
Theorem trim_trailing_of_whitespace (s : string)
    (Hws : StdString.all_in WHITESPACE s = true) :
  StdString.find_last_not_of s WHITESPACE = SizeT.npos /\
  trim_trailing s = Some "".
Proof.
  pose proof (find_last_not_of_whitespace s Hws) as Hn. split; [exact Hn|].
  unfold trim_trailing, StdString.erase. rewrite Hn, add_1_npos.
  pose proof (StringFacts.size_nonneg s).
  destruct (Z.ltb_spec (StdString.size s) 0); [lia|]. now destruct s.
Qed.

Lemma trim_trailing_of_whitespace_witness :
  StdString.all_in WHITESPACE (String SP (String HT endl)) = true /\
  StdString.find_last_not_of (String SP (String HT endl)) WHITESPACE = SizeT.npos /\
  trim_trailing (String SP (String HT endl)) = Some "".
Proof.
  split; [reflexivity|].
  exact (trim_trailing_of_whitespace (String SP (String HT endl)) eq_refl).
Defined.

(** X7.  Trimming twice is trimming once: what [trim_trailing] returns it
    returns unchanged when called again. *)
Theorem trim_trailing_idempotent (s t : string)
    (Hsize : StdString.size s < SizeT.npos)
    (Htrim : trim_trailing s = Some t) :
  trim_trailing t = Some t.
Proof.
  destruct (clean_part_exists s) as (t0 & w & -> & Hw & Hclean).
  rewrite trim_trailing_append in Htrim by assumption. injection Htrim as <-.
  rewrite StringFacts.size_append in Hsize. pose proof (StringFacts.size_nonneg w).
  rewrite <- (StringFacts.append_nil_r t0) at 1.
  apply trim_trailing_append; [|reflexivity|assumption].
  rewrite StringFacts.append_nil_r. lia.
Qed.

Lemma trim_trailing_idempotent_witness :
  StdString.size ("10 " ++ endl) < SizeT.npos /\
  trim_trailing ("10 " ++ endl) = Some "10" /\
  trim_trailing "10" = Some "10".
Proof.
  split; [reflexivity|]. split; [reflexivity|].
  exact (trim_trailing_idempotent ("10 " ++ endl) "10" eq_refl eq_refl).
Defined.

(** X8.  [print_colored] with a colour name that [COLORS] does not hold
    does not throw: it writes the text without a colour code, followed by
    the reset code all the same. *)
Theorem print_colored_unknown_color (text color_name out : string)
    (Hgreen : color_name <> "green") (Hred : color_name <> "red")
    (Hbold : color_name <> "bold") (Hend : color_name <> "end") :
  map_find COLORS color_name = None /\
  print_colored text color_name out = (Return tt, out ++ text ++ RESET).
Proof.
  assert (Hfind : map_find COLORS color_name = None).
  { unfold COLORS. cbn [map_find].
    repeat match goal with
           | |- context [(?k =? color_name)%string] =>
               let E := fresh in
               destruct (String.eqb_spec k color_name) as [E|E];
               [symmetry in E; contradiction|]
           end.
    reflexivity. }
  split; [exact Hfind|].
  rewrite print_colored_run. f_equal. f_equal.
  unfold written, print_colored. rewrite Hfind. reflexivity.
Qed.

Lemma print_colored_unknown_color_witness :
  map_find COLORS "blue" = None /\
  print_colored "text" "blue" "" = (Return tt, "" ++ "text" ++ RESET).
Proof.
  exact (print_colored_unknown_color "text" "blue" ""
           ltac:(discriminate) ltac:(discriminate) ltac:(discriminate)
           ltac:(discriminate)).
Defined.

(** ** The case runner, further *)

Lemma find_unique {A} (f : A -> bool) (l : list A) (x : A) :
  In x l -> f x = true -> (forall y, In y l -> f y = true -> y = x) ->
  find f l = Some x.
Proof.
  induction l as [|y l IH]; [contradiction|].
  intros Hin Hx Huniq. cbn [find]. destruct (f y) eqn:Hy.
  - f_equal. apply Huniq; [now left | exact Hy].
  - destruct Hin as [->|Hin]; [congruence|].
    apply IH; [assumption | assumption|]. intros z Hz. apply Huniq. now right.
Qed.

Lemma read_line_line (line rest : string) :
  no_newline line = true ->
  read_line (line ++ String LF rest) = (line, Some rest).
Proof.
  induction line as [|c line IH]; [reflexivity|].
  cbn [no_newline append read_line]. intros H. apply andb_prop in H as [Hc Hline].
  apply negb_true_iff in Hc. rewrite Hc, (IH Hline). reflexivity.
Qed.

Lemma clamp_in_range (n : Z) : Int.in_range n = true -> Int.clamp n = n.
Proof.
  unfold Int.in_range, Int.clamp. intros H. apply andb_prop in H as [H1 H2].
  apply Z.leb_le in H1, H2.
  destruct (Z.ltb_spec n Int.INT_MIN); [lia|].
  destruct (Z.ltb_spec Int.INT_MAX n); [lia | reflexivity].
Qed.

Lemma try_catch_throws_other {A} (body : io A) (handler : string -> io A)
    (out : string) (e : thrown) :
  (forall what, returns (handler what)) ->
  fst (try_catch body handler out) = Throw e -> e = other_object.
Proof.
  intros Hh. unfold try_catch. destruct (body out) as [[a|[what|]] out'].
  - discriminate.
  - destruct (Hh what out') as [a ->]. discriminate.
  - now intros [= <-].
Qed.

Section RunnerFurther.
Import StringFacts.
Variable fs : filesystem.
Variable solution : string -> Z -> completion Z.
Variable indeterminate : Z.

Local Abbreviation run_test' := (run_test fs solution indeterminate).
Local Abbreviation judge' := (judge fs solution).
Local Abbreviation in_file case_name := (Path.append TESTS_DIR (case_name ++ ".in")).
Local Abbreviation out_file case_name := (Path.append TESTS_DIR (case_name ++ ".out")).

(** The expected output is there and cannot be opened: [read_file_content]
    throws before the solution is called. *)
Lemma judge_unreadable (path : string) (input : string * Z) (out : string) :
  exists_ fs path = true ->
  ifstream fs path = None ->
  judge' path input out
  = (Throw (std_exception ("Could not open file: " ++ path)), out).
Proof.
  intros Hex Hno. rewrite (framed_judge fs solution path input out).
  unfold written, judge, read_file_content. destruct input as [input_str input_int].
  rewrite Hex, Hno. cbn. now rewrite append_nil_r.
Qed.

(** [run_test] lets no [std::exception] out. *)
Lemma run_test_throws_other (case_name out : string) (e : thrown) :
  fst (run_test' case_name out) = Throw e -> e = other_object.
Proof.
  rewrite run_test_unfold. apply try_catch_throws_other.
  intros what. apply returns_report_exception.
Qed.

(** X9.  The input file opens and the expected-output file exists but cannot
    be opened.  Then [run_test] returns [false] from its [catch] block, with
    the report "Could not open file: " and the path, whatever the solution
    is: the case is Failed, not Skipped. *)
Theorem unreadable_output_is_failed (case_name bytes out : string)
    (Hopen : ifstream fs (in_file case_name) = Some bytes)
    (Hexists : exists_ fs (out_file case_name) = true)
    (Hunreadable : ifstream fs (out_file case_name) = None) :
  run_test' case_name out
  = (Return false,
     out ++ failure_report ("Could not open file: " ++ out_file case_name)) /\
  Failed (run_test' case_name "") /\
  ~ Skipped (run_test' case_name "").
Proof.
  assert (Hrun : forall o, run_test' case_name o
                   = (Return false,
                      o ++ failure_report ("Could not open file: " ++ out_file case_name))).
  { intros o. rewrite (run_test_opened fs solution indeterminate _ _ o Hopen).
    unfold try_catch. rewrite (judge_unreadable _ _ o Hexists Hunreadable).
    apply report_exception_run. }
  split; [apply Hrun|]. split.
  - right. eexists. red. rewrite Hrun. reflexivity.
  - rewrite Hrun. intros [H|H]; red in H; injection H as H;
      vm_compute in H; discriminate H.
Qed.

(** X10.  The input file of a case cannot be opened.  Then [run_test]
    writes the missing-input notice and returns [false], whether or not
    there is an expected output and whatever the solution is. *)
Theorem missing_input_is_skipped (case_name out : string)
    (Hmissing : ifstream fs (in_file case_name) = None) :
  run_test' case_name out = (Return false, out ++ skipped_notice SKIPPED_INPUT) /\
  Skipped_missing_input (run_test' case_name "") /\
  ~ Failed (run_test' case_name "").
Proof.
  pose proof (run_test_missing_input fs solution indeterminate case_name) as Hrun.
  split; [now apply Hrun|]. split.
  - red. now rewrite Hrun.
  - rewrite Hrun by assumption.
    intros [H|[what H]]; red in H; injection H as H; vm_compute in H; discriminate H.
Qed.

(** X11.  Both files open and the solution returns.  Then [run_test] writes
    nothing and returns the comparison of the two trimmed strings: [true]
    when they are equal, [false] when they are not. *)
Theorem returned_solution_is_compared (case_name bytes expected out : string) (result : Z)
    (Hopen : ifstream fs (in_file case_name) = Some bytes)
    (Hout : ifstream fs (out_file case_name) = Some expected)
    (Hsol : solution (fst (read_input indeterminate bytes))
              (snd (read_input indeterminate bytes)) = Return result) :
  exists actual_output expected_output,
    trim_trailing (to_string result) = Some actual_output /\
    trim_trailing expected = Some expected_output /\
    run_test' case_name out
    = (Return (actual_output =? expected_output)%string, out) /\
    (Passed (run_test' case_name "") <-> actual_output = expected_output) /\
    (Failed_mismatch (run_test' case_name "") <-> actual_output <> expected_output).
Proof.
  destruct (read_input indeterminate bytes) as [input_str input_int] eqn:Hread.
  cbn [fst snd] in Hsol.
  assert (Hrun : forall o, exists a e,
             trim_trailing (to_string result) = Some a /\
             trim_trailing expected = Some e /\
             run_test' case_name o = (Return (a =? e)%string, o)).
  { intros o.
    destruct (judge_returned fs solution _ input_str input_int expected result o
                Hout Hsol) as (a & e & Ha & He & Hj).
    exists a, e. repeat split; try assumption.
    rewrite (run_test_opened fs solution indeterminate _ _ o Hopen), Hread.
    unfold try_catch. now rewrite Hj. }
  destruct (Hrun out) as (a & e & Ha & He & Hout').
  destruct (Hrun "") as (a' & e' & Ha' & He' & Hempty).
  rewrite Ha in Ha'. rewrite He in He'. injection Ha' as <-. injection He' as <-.
  exists a, e. repeat split; try assumption.
  - unfold Passed. rewrite Hempty. cbn [fst]. intros [= H]. now apply String.eqb_eq.
  - intros ->. unfold Passed. rewrite Hempty. cbn [fst]. now rewrite String.eqb_refl.
  - unfold Failed_mismatch. rewrite Hempty. intros [= H]. now apply String.eqb_neq.
  - intros H. apply String.eqb_neq in H. unfold Failed_mismatch.
    now rewrite Hempty, H.
Qed.

(** A case that passes has written nothing. *)
Lemma run_test_true_silent (case_name out : string) :
  fst (run_test' case_name out) = Return true ->
  run_test' case_name out = (Return true, out).
Proof.
  intros Hpassed.
  destruct (ifstream fs (in_file case_name)) as [bytes|] eqn:Hin.
  2:{ rewrite run_test_missing_input in Hpassed by assumption. discriminate. }
  rewrite (run_test_opened fs solution indeterminate _ _ out Hin) in *.
  unfold try_catch in *.
  destruct (read_input indeterminate bytes) as [input_str input_int] eqn:Hread.
  destruct (exists_ fs (out_file case_name)) eqn:Hex.
  2:{ rewrite judge_missing_output in Hpassed by assumption. discriminate. }
  destruct (ifstream fs (out_file case_name)) as [expected|] eqn:Hout.
  2:{ rewrite (judge_unreadable _ _ out Hex Hout), report_exception_run in Hpassed.
      discriminate. }
  destruct (solution input_str input_int) as [result|e] eqn:Hsol.
  - destruct (judge_returned fs solution _ input_str input_int expected result out
                Hout Hsol) as (a & x & Ha & Hx & Hj).
    rewrite Hj in *. cbn [fst] in Hpassed. now injection Hpassed as ->.
  - rewrite (judge_threw fs solution _ input_str input_int expected e out Hout Hsol)
      in Hpassed.
    destruct e; [rewrite report_exception_run in Hpassed|]; discriminate.
Qed.

(** X12.  [run_test] returns [true] for no case that it did not compare:
    when it does, the input file was opened, the expected output was read,
    the solution returned, and the two trimmed strings are the same. *)
Theorem passed_only_after_comparison (case_name out : string)
    (Hpassed : fst (run_test' case_name out) = Return true) :
  exists bytes expected result trimmed,
    ifstream fs (in_file case_name) = Some bytes /\
    ifstream fs (out_file case_name) = Some expected /\
    solution (fst (read_input indeterminate bytes))
      (snd (read_input indeterminate bytes)) = Return result /\
    trim_trailing (to_string result) = Some trimmed /\
    trim_trailing expected = Some trimmed.
Proof.
  destruct (ifstream fs (in_file case_name)) as [bytes|] eqn:Hin.
  2:{ rewrite run_test_missing_input in Hpassed by assumption. discriminate. }
  rewrite (run_test_opened fs solution indeterminate _ _ out Hin) in Hpassed.
  unfold try_catch in Hpassed.
  destruct (read_input indeterminate bytes) as [input_str input_int] eqn:Hread.
  destruct (exists_ fs (out_file case_name)) eqn:Hex.
  2:{ rewrite judge_missing_output in Hpassed by assumption. discriminate. }
  destruct (ifstream fs (out_file case_name)) as [expected|] eqn:Hout.
  2:{ rewrite (judge_unreadable _ _ out Hex Hout), report_exception_run in Hpassed.
      discriminate. }
  destruct (solution input_str input_int) as [result|e] eqn:Hsol.
  - destruct (judge_returned fs solution _ input_str input_int expected result out
                Hout Hsol) as (a & x & Ha & Hx & Hj).
    rewrite Hj in Hpassed. cbn [fst] in Hpassed. injection Hpassed as Heq.
    apply String.eqb_eq in Heq. subst x.
    exists bytes, expected, result, a. rewrite Hread. cbn [fst snd].
    repeat split; assumption || reflexivity.
  - rewrite (judge_threw fs solution _ input_str input_int expected e out Hout Hsol)
      in Hpassed.
    destruct e; [rewrite report_exception_run in Hpassed|]; discriminate.
Qed.


(** X13.  A fixture of the documented form is read back: a first line
    without a newline in it, a newline, any white space, the decimal form of
    [n] and anything that does not go on with a digit give that line and
    [n] itself when [n] is an [int], the nearest bound of [int] otherwise;
    the uninitialised value plays no part. *)
Theorem read_input_well_formed (line ws rest : string) (n : Z)
    (Hline : no_newline line = true)
    (Hws : all_isspace ws = true)
    (Hrest : starts_with_digit rest = false) :
  read_input indeterminate (line ++ String LF (ws ++ to_string n ++ rest))
  = (line, Int.clamp n) /\
  (Int.in_range n = true -> Int.clamp n = n).
Proof.
  split; [|apply clamp_in_range].
  unfold read_input, getline, open_stream.
  cbn [good eofbit failbit buffer negb andb]. rewrite (read_line_line _ _ Hline).
  unfold extract_int. cbn [good eofbit failbit buffer negb andb].
  rewrite skip_space_append, skip_space_to_string by assumption.
  destruct (to_string n ++ rest) as [|c s] eqn:E;
    [now apply to_string_nonempty in E|].
  rewrite <- E, signed_number_to_string by assumption. reflexivity.
Qed.

(** X14.  When nothing but white space, or nothing at all, follows the
    first line, [>>] stores nothing: [run_test] goes on with the value the
    uninitialised [input_int] held and hands it to the solution. *)
Theorem absent_token_leaves_input_int (case_name bytes line out : string)
    (Hopen : ifstream fs (in_file case_name) = Some bytes)
    (Habsent : read_line bytes = (line, None) \/
               exists rest, read_line bytes = (line, Some rest) /\
                            skip_space rest = "") :
  read_input indeterminate bytes = (line, indeterminate) /\
  run_test' case_name out
  = try_catch (judge' (out_file case_name) (line, indeterminate))
      report_exception out.
Proof.
  assert (Hread : read_input indeterminate bytes = (line, indeterminate)).
  { unfold read_input, getline, open_stream.
    cbn [good eofbit failbit buffer negb andb].
    destruct Habsent as [H|(rest & H & Hskip)]; rewrite H.
    - unfold extract_int, good. cbn [eofbit failbit negb andb]. reflexivity.
    - unfold extract_int. cbn [good eofbit failbit buffer negb andb].
      now rewrite Hskip. }
  split; [exact Hread|].
  now rewrite (run_test_opened fs solution indeterminate _ _ out Hopen), Hread.
Qed.

(** X15.  Discovery and the runner agree on a fixture with a canonical
    name: a regular file [<n>.in], [n] an [int], the only entry of that
    name, is discovered as the case [<n>], and the input [run_test] opens
    for that case is this file. *)
Theorem canonical_fixture_is_opened (e : dir_entry) (n : Z)
    (Hin : In e (entries_of fs))
    (Hreg : is_regular_file e = true)
    (Hname : filename e = to_string n ++ ".in")
    (Hrange : Int.in_range n = true)
    (Hunique : forall e', In e' (entries_of fs) -> filename e' = filename e -> e' = e) :
  In (to_string n) (discovered fs) /\
  ifstream fs (in_file (to_string n)) = contents e.
Proof.
  split.
  - apply discovered_In. exists e, n.
    assert (Ha : accepted e = if Int.in_range n then Some n else None).
    { apply (accepted_decimal_prefix e "" "" n); try reflexivity; try assumption.
      cbn [append]. now rewrite append_nil_r. }
    rewrite Hrange in Ha. apply accepted_iff in Ha as (? & ? & ?). auto.
  - unfold ifstream, resolve. destruct fs as [entries|]; [|contradiction].
    cbn [entries_of] in *.
    rewrite (find_unique _ entries e Hin); [reflexivity| |].
    + rewrite Hname. apply String.eqb_refl.
    + intros e' Hin' He'. apply Hunique; [assumption|].
      apply String.eqb_eq in He'. rewrite <- Hname in He'.
      apply tests_dir_append_inj in He'; [assumption|].
      rewrite Hname. apply to_string_relative.
Qed.

End RunnerFurther.

(** ** Any result, not only 42 *)

Section DecimalEnds.
Import StringFacts.

Lemma last_string_of_uint (d : Decimal.uint) :
  d <> Decimal.Nil ->
  exists c, StdString.last (NilEmpty.string_of_uint d) = Some c /\ isdigit c = true.
Proof.
  induction d as [|d IH|d IH|d IH|d IH|d IH|d IH|d IH|d IH|d IH|d IH];
    intros Hnil; [congruence|..];
    (destruct d as [|d'|d'|d'|d'|d'|d'|d'|d'|d'|d'];
     [eexists; split; reflexivity|..]);
    (destruct IH as (c & Hc & Hd); [discriminate|]);
    exists c; (split; [|exact Hd]);
    cbn [NilEmpty.string_of_uint] in *;
    (rewrite last_String; [exact Hc | discriminate]).
Qed.

Lemma digit_not_stripped (c : ascii) :
  isdigit c = true -> StdString.contains WHITESPACE c = false.
Proof.
  intros Hd. destruct (StdString.contains WHITESPACE c) eqn:E; [|reflexivity].
  apply whitespace_chars in E as [->|[->|[->| ->]]]; discriminate Hd.
Qed.

(** The decimal form of a number ends in a digit: trimming leaves it alone. *)
Lemma to_string_ends_clean (n : Z) : ends_clean (to_string n).
Proof.
  unfold ends_clean, to_string.
  destruct n as [|p|p]; cbn [Z.to_int NilEmpty.string_of_int].
  - reflexivity.
  - destruct (last_string_of_uint (Pos.to_uint p)) as (c & -> & Hc);
      [apply DecimalPos.Unsigned.to_uint_nonnil | now apply digit_not_stripped].
  - pose proof (DecimalPos.Unsigned.to_uint_nonnil p) as Hnil.
    destruct (last_string_of_uint (Pos.to_uint p) Hnil) as (c & Hl & Hc).
    rewrite last_String; [rewrite Hl; now apply digit_not_stripped|].
    now apply last_some_nonempty in Hl.
Qed.

End DecimalEnds.


(** X16.  The round trip for any result: the expected-output file holds the
    decimal form of [result] and then any run of spaces, newlines, carriage
    returns and tabs, and the solution, called on the case's input, returns
    [result].  Then [run_test] returns [true] and writes nothing. *)
Theorem roundtrip_any_result_passes
    (fs : filesystem) (solution : string -> Z -> completion Z) (indeterminate : Z)
    (case_name bytes ws out : string) (result : Z)
    (Hopen : ifstream fs (Path.append TESTS_DIR (case_name ++ ".in")) = Some bytes)
    (Hout : ifstream fs (Path.append TESTS_DIR (case_name ++ ".out"))
            = Some (to_string result ++ ws))
    (Hws : StdString.all_in WHITESPACE ws = true)
    (Hsize : StdString.size (to_string result ++ ws) < SizeT.npos)
    (Hsol : solution (fst (read_input indeterminate bytes))
              (snd (read_input indeterminate bytes)) = Return result) :
  trim_trailing (to_string result) = Some (to_string result) /\
  trim_trailing (to_string result ++ ws) = Some (to_string result) /\
  run_test fs solution indeterminate case_name out = (Return true, out).
Proof.
  assert (Hclean : ends_clean (to_string result)) by apply to_string_ends_clean.
  assert (Hexp : trim_trailing (to_string result ++ ws) = Some (to_string result))
    by now apply trim_trailing_append.
  assert (Hact : trim_trailing (to_string result) = Some (to_string result)).
  { rewrite <- (StringFacts.append_nil_r (to_string result)) at 1.
    apply trim_trailing_append; [|reflexivity | exact Hclean].
    rewrite StringFacts.size_append in *. pose proof (StringFacts.size_nonneg ws).
    change (StdString.size "") with 0. lia. }
  split; [exact Hact|]. split; [exact Hexp|].
  rewrite (run_test_opened fs solution indeterminate _ _ out Hopen). unfold try_catch.
  destruct (read_input indeterminate bytes) as [input_str input_int].
  destruct (judge_returned fs solution _ input_str input_int _ result out Hout Hsol)
    as (a & e & Ha & He & Hj).
  rewrite Hexp in He. rewrite Hact in Ha. injection He as <-. injection Ha as <-.
  now rewrite Hj, String.eqb_refl.
Qed.

(** ** The reporter, further *)

Section ReporterFurther.
Import StringFacts.
Variable fs : filesystem.
Variable solution : string -> Z -> completion Z.
Variable indeterminate : Z.

Local Abbreviation run_test' := (run_test fs solution indeterminate).
Local Abbreviation run_all' := (run_all fs solution indeterminate).
Local Abbreviation count_passed' := (count_passed fs solution indeterminate).
Local Abbreviation report' := (report fs solution indeterminate).

Lemma framed_run_all (test_cases : list string) (passed_count : Z) :
  framed (run_all' test_cases passed_count).
Proof.
  revert passed_count. induction test_cases as [|c rest IH]; intros p; cbn [run_all].
  - apply framed_ret.
  - apply framed_bind; [apply framed_run_test | intros b; apply IH].
Qed.

Lemma discovered_some (test_case : string) (rest : list string) :
  discovered fs = test_case :: rest ->
  written (find_test_cases fs TESTS_DIR) = "".
Proof. destruct fs; [reflexivity | discriminate]. Qed.

(** A case that throws ends the loop: so does the loop throw. *)
Lemma run_all_throws (test_cases : list string) (c : string) (e : thrown) :
  In c test_cases ->
  fst (run_test' c "") = Throw e ->
  forall passed_count, exists e', fst (run_all' test_cases passed_count "") = Throw e'.
Proof.
  intros Hin Hthrow. induction test_cases as [|c0 rest IH]; [contradiction|].
  intros p. cbn [run_all]. unfold bind at 1.
  destruct (run_test' c0 "") as [[b|e0] w] eqn:E0.
  - destruct Hin as [->|Hin]; [rewrite E0 in Hthrow; discriminate|].
    rewrite (framed_run_all rest _ w). cbn [fst].
    apply (IH Hin).
  - eexists. reflexivity.
Qed.


(** X18.  A case whose call of [run_test] lets an exception out can only
    have let out an object that is no [std::exception]; the process is then
    aborted with what the cases wrote so far on the console, and no summary
    line. *)
Theorem escaped_exception_aborts_run (c : string) (e : thrown)
    (Hin : In c (discovered fs))
    (Hescaped : fst (run_test' c "") = Throw e) :
  e = other_object /\
  run_process fs solution indeterminate
  = Aborted (written (run_all' (discovered fs) 0)).
Proof.
  split; [now apply (run_test_throws_other fs solution indeterminate c "")|].
  rewrite run_process_report.
  destruct (run_all_throws (discovered fs) c e Hin Hescaped 0) as [e' He'].
  destruct (discovered fs) as [|c0 rest] eqn:Hd; [contradiction|].
  rewrite (discovered_some c0 rest Hd), report_cons.
  unfold bind at 1. unfold written.
  destruct (run_all' (c0 :: rest) 0 "") as [r w]. cbn [fst snd] in *.
  now subst r.
Qed.

End ReporterFurther.

(** ** The further properties at concrete fixtures *)

Lemma unreadable_output_is_failed_witness :
  ifstream unreadable_output_fixture (Path.append TESTS_DIR ("3" ++ ".in"))
  = Some ("hello" ++ endl ++ "5" ++ endl) /\
  exists_ unreadable_output_fixture (Path.append TESTS_DIR ("3" ++ ".out")) = true /\
  ifstream unreadable_output_fixture (Path.append TESTS_DIR ("3" ++ ".out")) = None /\
  run_test unreadable_output_fixture doubling 0 "3" ""
  = (Return false,
     "" ++ failure_report
             ("Could not open file: " ++ Path.append TESTS_DIR ("3" ++ ".out"))).
Proof.
  do 3 (split; [reflexivity|]).
  exact (proj1 (unreadable_output_is_failed unreadable_output_fixture doubling 0
                  "3" _ "" eq_refl eq_refl eq_refl)).
Defined.

Lemma missing_input_is_skipped_witness :
  ifstream scenario_A (Path.append TESTS_DIR ("5" ++ ".in")) = None /\
  run_test scenario_A doubling 0 "5" ""
  = (Return false, "" ++ skipped_notice SKIPPED_INPUT).
Proof.
  split; [reflexivity|].
  exact (proj1 (missing_input_is_skipped scenario_A doubling 0 "5" "" eq_refl)).
Defined.

Lemma returned_solution_is_compared_witness :
  ifstream scenario_A (Path.append TESTS_DIR ("1" ++ ".in"))
  = Some ("hello" ++ endl ++ "5" ++ endl) /\
  ifstream scenario_A (Path.append TESTS_DIR ("1" ++ ".out")) = Some ("10" ++ endl) /\
  doubling (fst (read_input 0 ("hello" ++ endl ++ "5" ++ endl)))
    (snd (read_input 0 ("hello" ++ endl ++ "5" ++ endl))) = Return 10 /\
  exists actual_output expected_output,
    trim_trailing (to_string 10) = Some actual_output /\
    trim_trailing ("10" ++ endl) = Some expected_output /\
    run_test scenario_A doubling 0 "1" ""
    = (Return (actual_output =? expected_output)%string, "") /\
    (Passed (run_test scenario_A doubling 0 "1" "")
     <-> actual_output = expected_output) /\
    (Failed_mismatch (run_test scenario_A doubling 0 "1" "")
     <-> actual_output <> expected_output).
Proof.
  do 3 (split; [reflexivity|]).
  exact (returned_solution_is_compared scenario_A doubling 0 "1" _ _ "" 10
           eq_refl eq_refl eq_refl).
Defined.

Lemma passed_only_after_comparison_witness :
  fst (run_test scenario_A doubling 0 "1" "") = Return true /\
  exists bytes expected result trimmed,
    ifstream scenario_A (Path.append TESTS_DIR ("1" ++ ".in")) = Some bytes /\
    ifstream scenario_A (Path.append TESTS_DIR ("1" ++ ".out")) = Some expected /\
    doubling (fst (read_input 0 bytes)) (snd (read_input 0 bytes)) = Return result /\
    trim_trailing (to_string result) = Some trimmed /\
    trim_trailing expected = Some trimmed.
Proof.
  split; [reflexivity|].
  exact (passed_only_after_comparison scenario_A doubling 0 "1" "" eq_refl).
Defined.

Lemma read_input_well_formed_witness :
  no_newline "hello" = true /\
  all_isspace ("  " ++ endl) = true /\
  starts_with_digit endl = false /\
  read_input 77 ("hello" ++ String LF (("  " ++ endl) ++ to_string (-5) ++ endl))
  = ("hello", Int.clamp (-5)).
Proof.
  do 3 (split; [reflexivity|]).
  exact (proj1 (read_input_well_formed 77 "hello" ("  " ++ endl) endl (-5)
                  eq_refl eq_refl eq_refl)).
Defined.

Lemma absent_token_leaves_input_int_witness :
  ifstream blank_second_line_fixture (Path.append TESTS_DIR ("5" ++ ".in"))
  = Some ("hello" ++ endl ++ "  " ++ endl) /\
  (read_line ("hello" ++ endl ++ "  " ++ endl) = ("hello", None) \/
   exists rest, read_line ("hello" ++ endl ++ "  " ++ endl) = ("hello", Some rest) /\
                skip_space rest = "") /\
  read_input 77 ("hello" ++ endl ++ "  " ++ endl) = ("hello", 77).
Proof.
  assert (H : read_line ("hello" ++ endl ++ "  " ++ endl) = ("hello", None) \/
              exists rest,
                read_line ("hello" ++ endl ++ "  " ++ endl) = ("hello", Some rest) /\
                skip_space rest = "")
    by (right; exists ("  " ++ endl); split; reflexivity).
  split; [reflexivity|]. split; [exact H|].
  exact (proj1 (absent_token_leaves_input_int blank_second_line_fixture echo_n 77
                  "5" _ "hello" "" eq_refl H)).
Defined.

Lemma canonical_fixture_is_opened_witness :
  In (file "1.in" ("hello" ++ endl ++ "5" ++ endl)) (entries_of scenario_A) /\
  Int.in_range 1 = true /\
  (forall e', In e' (entries_of scenario_A) ->
              filename e' = filename (file "1.in" ("hello" ++ endl ++ "5" ++ endl)) ->
              e' = file "1.in" ("hello" ++ endl ++ "5" ++ endl)) /\
  In (to_string 1) (discovered scenario_A) /\
  ifstream scenario_A (Path.append TESTS_DIR (to_string 1 ++ ".in"))
  = contents (file "1.in" ("hello" ++ endl ++ "5" ++ endl)).
Proof.
  assert (H1 : In (file "1.in" ("hello" ++ endl ++ "5" ++ endl)) (entries_of scenario_A))
    by (now left).
  assert (H2 : forall e', In e' (entries_of scenario_A) ->
                 filename e' = filename (file "1.in" ("hello" ++ endl ++ "5" ++ endl)) ->
                 e' = file "1.in" ("hello" ++ endl ++ "5" ++ endl)).
  { intros e' [<-|[<-|[]]] E; [reflexivity | discriminate E]. }
  split; [exact H1|]. split; [reflexivity|]. split; [exact H2|].
  exact (canonical_fixture_is_opened scenario_A
           (file "1.in" ("hello" ++ endl ++ "5" ++ endl)) 1 H1 eq_refl eq_refl eq_refl H2).
Defined.

Lemma roundtrip_any_result_passes_witness :
  ifstream negative_fixture (Path.append TESTS_DIR ("4" ++ ".in"))
  = Some ("abc" ++ endl ++ "-3" ++ endl) /\
  ifstream negative_fixture (Path.append TESTS_DIR ("4" ++ ".out"))
  = Some (to_string (-6) ++ String SP endl) /\
  StdString.all_in WHITESPACE (String SP endl) = true /\
  StdString.size (to_string (-6) ++ String SP endl) < SizeT.npos /\
  doubling (fst (read_input 0 ("abc" ++ endl ++ "-3" ++ endl)))
    (snd (read_input 0 ("abc" ++ endl ++ "-3" ++ endl))) = Return (-6) /\
  run_test negative_fixture doubling 0 "4" "" = (Return true, "").
Proof.
  do 5 (split; [reflexivity|]).
  exact (proj2 (proj2 (roundtrip_any_result_passes negative_fixture doubling 0
                         "4" _ (String SP endl) "" (-6)
                         eq_refl eq_refl eq_refl eq_refl eq_refl))).
Defined.


(** The two cases in full: the first passes, the second is Skipped. *)
Example two_case_fixture_run :
  discovered two_case_fixture = ["1"; "2"] /\
  run_process two_case_fixture doubling 0
  = Exited 1 (skipped_notice SKIPPED_OUTPUT ++ summary_line 1 2) /\
  summary_line 1 2 = written (print_colored "Passed 1 out of 2 tests." "red") ++ endl.
Proof. repeat split. Qed.

Lemma escaped_exception_aborts_run_witness :
  In "3" (discovered scenario_C) /\
  fst (run_test scenario_C throwing_int 0 "3" "") = Throw other_object /\
  other_object = other_object /\
  run_process scenario_C throwing_int 0
  = Aborted (written (run_all scenario_C throwing_int 0 (discovered scenario_C) 0)).
Proof.
  assert (H : In "3" (discovered scenario_C)) by (now left).
  split; [exact H|]. split; [reflexivity|].
  exact (escaped_exception_aborts_run scenario_C throwing_int 0 "3" other_object
           H eq_refl).
Defined.

(** ** Whole runs *)

Section WholeRuns.
Import StringFacts.
Variable fs : filesystem.
Variable solution : string -> Z -> completion Z.
Variable indeterminate : Z.

Local Abbreviation run_test' := (run_test fs solution indeterminate).
Local Abbreviation run_all' := (run_all fs solution indeterminate).

Lemma run_all_all_pass (test_cases : list string) :
  (forall c, In c test_cases -> fst (run_test' c "") = Return true) ->
  forall passed_count out,
    0 <= passed_count ->
    passed_count + Z.of_nat (List.length test_cases) <= Int.INT_MAX ->
    run_all' test_cases passed_count out
    = (Return (passed_count + Z.of_nat (List.length test_cases)), out).
Proof.
  induction test_cases as [|c rest IH]; intros Hall p out Hp Hmax.
  - cbn. now rewrite Z.add_0_r.
  - pose proof (Hall c (or_introl eq_refl)) as Hc.
    rewrite (run_all_step fs solution indeterminate c rest p out true Hc).
    apply (run_test_true_silent fs solution indeterminate) in Hc.
    unfold written. rewrite Hc. cbn [snd]. rewrite append_nil_r.
    assert (Hmin : Int.INT_MIN <= 0) by (unfold Int.INT_MIN; lia).
    cbn [List.length] in *. rewrite wrap_in_range by lia.
    rewrite IH; [do 2 f_equal; lia | | lia | lia].
    intros c' Hc'. apply Hall. now right.
Qed.

Lemma run_process_all_pass :
  (forall c, In c (discovered fs) -> fst (run_test' c "") = Return true) ->
  Z.of_nat (List.length (discovered fs)) <= Int.INT_MAX ->
  discovered fs <> [] ->
  run_process fs solution indeterminate
  = Exited 0
      (summary_line (Z.of_nat (List.length (discovered fs)))
         (Z.of_nat (List.length (discovered fs)))).
Proof.
  intros Hall Hmax Hfound. rewrite run_process_report.
  destruct (discovered fs) as [|c rest] eqn:Hd; [congruence|].
  rewrite (discovered_some fs c rest Hd), report_cons.
  unfold bind at 1. rewrite (run_all_all_pass _ Hall 0 "") by lia.
  cbn zeta. assert (Hmin : Int.INT_MIN <= 0) by (unfold Int.INT_MIN; lia).
  rewrite wrap_in_range by lia. rewrite Z.add_0_l, Z.eqb_refl.
  unfold bind at 1. rewrite print_colored_run.
  unfold bind, print, ret, summary_line. now rewrite Z.eqb_refl.
Qed.

(** X19.  At least one case is discovered, their number fits an [int], and
    every discovered case passes.  Then the run writes one line and no more,
    the summary "Passed Y out of Y tests." in green, Y the number of
    discovered cases, and exits with status [0].  (With no case discovered
    the run writes the no-cases notice instead.) *)
Theorem all_passed_prints_only_summary
    (Hall : forall c, In c (discovered fs) -> Passed (run_test' c ""))
    (Hmax : Z.of_nat (List.length (discovered fs)) <= Int.INT_MAX)
    (Hfound : discovered fs <> []) :
  run_process fs solution indeterminate
  = Exited 0
      (summary_line (Z.of_nat (List.length (discovered fs)))
         (Z.of_nat (List.length (discovered fs)))) /\
  summary_line (Z.of_nat (List.length (discovered fs)))
    (Z.of_nat (List.length (discovered fs)))
  = written
      (print_colored
         ("Passed " ++ to_string (Z.of_nat (List.length (discovered fs)))
            ++ " out of " ++ to_string (Z.of_nat (List.length (discovered fs)))
            ++ " tests.") "green") ++ endl.
Proof.
  split; [now apply run_process_all_pass|].
  unfold summary_line. now rewrite Z.eqb_refl.
Qed.

End WholeRuns.

Section FixturePair.
Import StringFacts.






End FixturePair.


Lemma all_passed_prints_only_summary_witness :
  (forall c, In c (discovered scenario_A) -> Passed (run_test scenario_A doubling 0 c "")) /\
  Z.of_nat (List.length (discovered scenario_A)) <= Int.INT_MAX /\
  discovered scenario_A <> [] /\
  run_process scenario_A doubling 0
  = Exited 0
      (summary_line (Z.of_nat (List.length (discovered scenario_A)))
         (Z.of_nat (List.length (discovered scenario_A)))).
Proof.
  assert (H1 : forall c, In c (discovered scenario_A) ->
                         Passed (run_test scenario_A doubling 0 c ""))
    by (intros c [<-|[]]; reflexivity).
  assert (H2 : Z.of_nat (List.length (discovered scenario_A)) <= Int.INT_MAX)
    by (vm_compute; discriminate).
  assert (H3 : discovered scenario_A <> []) by discriminate.
  do 3 (split; [assumption|]).
  exact (proj1 (all_passed_prints_only_summary scenario_A doubling 0 H1 H2 H3)).
Defined.

